(** * genshin.py: cursor paginators and their merge

    A shallow embedding of [genshin/paginator.py] and of the models of
    [genshin/models/transaction.py].  Asynchronous generators are small-step
    machines: one [pull] of a generator either yields an item, makes an
    internal step (a page was awaited), stops, or raises. *)

From Stdlib Require Import ZArith Ascii String.
From stdpp Require Import gmap strings list fin_maps sorting pretty.

Local Open Scope Z_scope.

(** ** Python values shared by the whole module *)

(** A raised exception: the name of its class and its argument, a string
    as it is and a number in decimal. *)
Record PyExc := mkExc { exc_type : string; exc_msg : string }.

Inductive result (A : Type) : Type :=
| Ok (a : A)
| Raise (e : PyExc).
Arguments Ok {A} a.
Arguments Raise {A} e.

(** Truthiness of an [Optional[int]]: [None] and [0] are falsy. *)
Definition truthy (stop : option Z) : bool :=
  match stop with
  | None => false
  | Some n => negb (n =? 0)
  end.

(** [l[:stop]] on a list, [stop] an [Optional[int]]: a negative stop counts
    from the end. *)
Definition slice_to {A} (l : list A) (stop : option Z) : list A :=
  match stop with
  | None => l
  | Some n =>
      if 0 <=? n then take (Z.to_nat n) l
      else take (Z.to_nat (Z.of_nat (length l) + n)) l
  end.

(** ** Asynchronous generators *)

(** The outcome of resuming a generator whose state has type [S]. *)
Inductive step (A S : Type) : Type :=
| Yield (a : A) (s : S)
| Tau (s : S)
| Stop (s : S)
| Throw (e : PyExc) (s : S).
Arguments Yield {A S} a s.
Arguments Tau {A S} s.
Arguments Stop {A S} s.
Arguments Throw {A S} e s.

Record AisliceState (S : Type) := mkAislice {
  stop : option Z;
  last_index : option Z;
  inner : Z * S
}.
Arguments mkAislice {S} stop last_index inner.
Arguments stop {S} _.
Arguments last_index {S} _.
Arguments inner {S} _.

Section Generators.
Context {A S : Type}.
Variable pull : S → step A S.

(** [[x async for x in it]]: resume until the generator stops.  [None] is
    a run that has not finished within [fuel] resumptions. *)
Fixpoint collect (fuel : nat) (s : S) : option (result (list A) * S) :=
  match fuel with
  | O => None
  | Datatypes.S fuel' =>
      match pull s with
      | Yield a s' =>
          match collect fuel' s' with
          | Some (Ok l, s'') => Some (Ok (a :: l), s'')
          | other => other
          end
      | Tau s' => collect fuel' s'
      | Stop s' => Some (Ok [], s')
      | Throw e s' => Some (Raise e, s')
      end
  end.

(** The items a generator yields from [s] until it stops, as a relation. *)
Inductive drains : S → list A → S → Prop :=
| drains_stop s s' : pull s = Stop s' → drains s [] s'
| drains_tau s s' l s'' : pull s = Tau s' → drains s' l s'' → drains s l s''
| drains_yield s a s' l s'' :
    pull s = Yield a s' → drains s' l s'' → drains s (a :: l) s''.

(** [aenumerate(iterable, start)]: the state is the next index and the
    state of the wrapped generator. *)
Definition aenumerate (start : Z) (s : S) : Z * S := (start, s).

Definition aenumerate_pull (st : Z * S) : step (Z * A) (Z * S) :=
  let '(i, s) := st in
  match pull s with
  | Yield x s' => Yield (i, x) (i + 1, s')
  | Tau s' => Tau (i, s')
  | Stop s' => Stop (i, s')
  | Throw e s' => Throw e (i, s')
  end.

(** [aislice(iterable, stop)]: the frame holds the argument [stop], the
    index of the item yielded last (for the test that follows the
    [yield]) and the [aenumerate(iterable, start=1)] it walks. *)
Definition aislice (s : S) (stop : option Z) : AisliceState S :=
  mkAislice stop None (aenumerate 1 s).

Definition aislice_done (stop : option Z) (last : option Z) : bool :=
  match last with
  | None => false
  | Some i => truthy stop && (default 0 stop <=? i)
  end.

Definition aislice_pull (st : AisliceState S) : step A (AisliceState S) :=
  if aislice_done (stop st) (last_index st) then Stop st
  else
    match aenumerate_pull (inner st) with
    | Yield (i, x) es' => Yield x (mkAislice (stop st) (Some i) es')
    | Tau es' => Tau (mkAislice (stop st) (last_index st) es')
    | Stop es' => Stop (mkAislice (stop st) (last_index st) es')
    | Throw e es' => Throw e (mkAislice (stop st) (last_index st) es')
    end.
End Generators.

(** ** IDPagintor *)

Definition page_size : Z := 20.

(** The attributes of a paginator.  [ext] holds what a subclass adds
    ([authkey], [client], [lang], [banner_type], [kind]). *)
Record IDPagintor (X : Type) := mkPaginator {
  limit : option Z;
  end_id : option Z;
  ext : X
}.
Arguments mkPaginator {X} limit end_id ext.
Arguments limit {X} _.
Arguments end_id {X} _.
Arguments ext {X} _.

Definition set_end_id {X} (v : option Z) (self : IDPagintor X) : IDPagintor X :=
  mkPaginator (limit self) v (ext self).

(** [__init__(limit=None, end_id=0)] *)
Definition IDPagintor_init {X} (limit : option Z) (end_id : option Z) (x : X)
  : IDPagintor X :=
  mkPaginator limit end_id x.

Definition exhausted {X} (self : IDPagintor X) : bool :=
  match end_id self with
  | None => true
  | Some _ => false
  end.

(** What lies outside the paginator: the state of the service behind
    [function], and the cursors [function] has been called with. *)
Record Env (W : Type) := mkEnv {
  world : W;
  fetches : list Z
}.
Arguments mkEnv {W} world fetches.
Arguments world {W} _.
Arguments fetches {W} _.

(** The state of the generator [_iter]: the rest of the page the [for] loop
    walks, the paginator and the outside. *)
Record IterState (T X W : Type) := mkIter {
  page : list T;
  self_of : IDPagintor X;
  env_of : Env W
}.
Arguments mkIter {T X W} page self_of env_of.
Arguments page {T X W} _.
Arguments self_of {T X W} _.
Arguments env_of {T X W} _.

Section Paginator.
Context {T X W : Type}.
(** [IDModel.id] *)
Variable id : T → Z.
(** The abstract method [function(self, end_id)], overridden by subclasses. *)
Variable function : X → Z → W → result (list T) * W.

Definition call_function (self : IDPagintor X) (c : Z) (env : Env W)
  : result (list T) * Env W :=
  let '(r, w) := function (ext self) c (world env) in
  (r, mkEnv w (fetches env ++ [c])).

Definition next_page (self : IDPagintor X) (env : Env W)
  : result (list T) * IDPagintor X * Env W :=
  match end_id self with
  | None => (Raise (mkExc "Exception" "No more pages"), self, env)
  | Some c =>
      let '(r, env') := call_function self c env in
      match r with
      | Raise e => (Raise e, self, env')
      | Ok data =>
          if Z.of_nat (length data) <? page_size
          then (Ok data, set_end_id None self, env')
          else
            match last data with
            | Some x => (Ok data, set_end_id (Some (id x)) self, env')
            | None =>
                (Raise (mkExc "IndexError" "list index out of range"), self, env')
            end
      end
  end.

(** [_iter]: one resumption either yields the next item of the page at
    hand, or tests [exhausted] and awaits [next_page]. *)
Definition _iter (self : IDPagintor X) (env : Env W) : IterState T X W :=
  mkIter [] self env.

Definition _iter_pull (st : IterState T X W) : step T (IterState T X W) :=
  match page st with
  | x :: rest => Yield x (mkIter rest (self_of st) (env_of st))
  | [] =>
      if exhausted (self_of st) then Stop st
      else
        match next_page (self_of st) (env_of st) with
        | (Ok data, self', env') => Tau (mkIter data self' env')
        | (Raise e, self', env') => Throw e (mkIter [] self' env')
        end
  end.

(** [__aiter__]: [aislice(self._iter(), self.limit)] *)
Definition AiterState : Type := AisliceState (IterState T X W).

Definition __aiter__ (self : IDPagintor X) (env : Env W) : AiterState :=
  aislice (_iter self env) (limit self).

Definition __aiter___pull : AiterState → step T AiterState :=
  aislice_pull _iter_pull.

Definition state_self (st : AiterState) : IDPagintor X := self_of (inner st).2.
Definition state_env (st : AiterState) : Env W := env_of (inner st).2.

(** [flatten]: [[item async for item in self]] *)
Definition flatten (fuel : nat) (self : IDPagintor X) (env : Env W)
  : option (result (list T) * AiterState) :=
  collect __aiter___pull fuel (__aiter__ self env).
End Paginator.

(** ** Merging sorted sources *)

Section Merge.
Context {A : Type}.
Variable key : A → Z.

(** The entry a heap ordered by [(key, order)] hands out first: the least
    key among the heads at hand, the earliest source among equal keys. *)
Fixpoint select_min (heads : list (option A)) : option (nat * A) :=
  match heads with
  | [] => None
  | h :: rest =>
      match h, select_min rest with
      | None, r => prod_map Datatypes.S (λ a, a) <$> r
      | Some a, None => Some (O, a)
      | Some a, Some (j, b) =>
          if key a <=? key b then Some (O, a) else Some (Datatypes.S j, b)
      end
  end.

(** [heapq.merge] over the lists, with [key=key]: hand out the least head,
    advance the list it came from, until every list is empty. *)
Fixpoint heapq_merge_steps (n : nat) (lists : list (list A)) : list A :=
  match n with
  | O => []
  | Datatypes.S n' =>
      match select_min (head <$> lists) with
      | None => []
      | Some (j, a) => a :: heapq_merge_steps n' (alter tail j lists)
      end
  end.

Definition heapq_merge (lists : list (list A)) : list A :=
  heapq_merge_steps (length (concat lists)) lists.
End Merge.

(** One source of [amerge]: waiting to be pulled, holding its pending item,
    or exhausted. *)
Inductive slot (A S : Type) : Type :=
| Need (s : S)
| Pending (a : A) (s : S)
| Dead (s : S).
Arguments Need {A S} s.
Arguments Pending {A S} a s.
Arguments Dead {A S} s.

Section Amerge.
Context {A S : Type}.
Variable pull : S → step A S.
Variable key : A → Z.

Definition slot_state (sl : slot A S) : S :=
  match sl with
  | Need s | Pending _ s | Dead s => s
  end.

Definition slot_pending (sl : slot A S) : option A :=
  match sl with
  | Pending a _ => Some a
  | _ => None
  end.

Definition slot_release (sl : slot A S) : slot A S :=
  match sl with
  | Pending _ s => Need s
  | other => other
  end.

(** Modelled from the spec: [amerge] of [genshin/utils], which is not among
    the sources.  Section 4.2: keep one pending item per source still
    alive; select the pending item of least key, sources in registration
    order among equal keys; yield it; refill the slot of that source by
    pulling its next item; drop a source that is exhausted; stop when all
    are. *)
Definition amerge (sources : list S) : list (slot A S) := Need <$> sources.

(** Modelled from the spec: the refill of [amerge], section 4.2.  Pull the
    first source whose slot is empty.  [None]: no slot is empty. *)
Fixpoint amerge_refill (slots : list (slot A S))
  : option (option PyExc * list (slot A S)) :=
  match slots with
  | [] => None
  | Need s :: rest =>
      Some match pull s with
           | Yield a s' => (None, Pending a s' :: rest)
           | Tau s' => (None, Need s' :: rest)
           | Stop s' => (None, Dead s' :: rest)
           | Throw e s' => (Some e, Dead s' :: rest)
           end
  | sl :: rest => prod_map (λ e, e) (cons sl) <$> amerge_refill rest
  end.

(** Modelled from the spec: one resumption of [amerge], section 4.2: refill
    first; with every slot filled, yield the pending item of least key, or
    stop when no source is alive. *)
Definition amerge_pull (slots : list (slot A S)) : step A (list (slot A S)) :=
  match amerge_refill slots with
  | Some (Some e, slots') => Throw e slots'
  | Some (None, slots') => Tau slots'
  | None =>
      match select_min key (slot_pending <$> slots) with
      | Some (j, a) => Yield a (alter slot_release j slots)
      | None => Stop slots
      end
  end.
End Amerge.

(** ** Merged paginators *)

(** [MergedWishHistory] and [MergedTransactions]: the paginator's own
    attributes and [_paginators].  Each child is kept with the part of the
    outside its [function] talks to: the children are independent, so that
    the order in which [asyncio.gather] interleaves them does not show. *)
Record Merged (XM X W : Type) := mkMerged {
  merged_self : IDPagintor XM;
  _paginators : list (IDPagintor X * Env W)
}.
Arguments mkMerged {XM X W} merged_self _paginators.
Arguments merged_self {XM X W} _.
Arguments _paginators {XM X W} _.

Section MergedPaginator.
Context {T X XM W C : Type}.
Variable id : T → Z.
Variable function : X → Z → W → result (list T) * W.
(** [self.__key] *)
Variable key : T → Z.
(** The coroutine [flatten] hands to [asyncio.create_task]. *)
Variable prefetch : IDPagintor XM → C.
(** Which of several children that raise does so first is for the event
    loop to decide, as is how far the others have come by then; [earliest]
    and the fuel stand for its decisions: of the children that have raised
    with the fuel at hand, given by their positions among the children and
    their exceptions, [earliest] names one by its place in that list. *)
Variable earliest : list (nat * PyExc) → nat.

Definition child_of_state (st : AiterState (T:=T) (X:=X) (W:=W))
  : IDPagintor X * Env W :=
  (state_self st, state_env st).

(** The children that have raised, with their positions from [i] on. *)
Fixpoint gather_failures {St} (i : nat)
    (rs : list (option (result (list T) * St))) : list (nat * PyExc) :=
  match rs with
  | [] => []
  | Some (Raise e, _) :: rest => (i, e) :: gather_failures (Datatypes.S i) rest
  | _ :: rest => gather_failures (Datatypes.S i) rest
  end.

(** [asyncio.gather] of the coroutines [coros]: the lists of the children in
    the order of the children; a child that raises makes the whole raise,
    whatever the others do, and of several that raise the one that is first
    in time; a child still running keeps the caller waiting. *)
Definition gather_raised {St} (rs : list (option (result (list T) * St)))
  : option PyExc :=
  match gather_failures O rs with
  | [] => None
  | f :: fs => Some (default f ((f :: fs) !! earliest (f :: fs))).2
  end.

Fixpoint gather_lists {St} (rs : list (option (result (list T) * St)))
  : option (list (list T)) :=
  match rs with
  | [] => Some []
  | Some (Ok l, _) :: rest => cons l <$> gather_lists rest
  | _ :: _ => None
  end.

Definition gather {St} (rs : list (option (result (list T) * St)))
  : option (result (list (list T))) :=
  match gather_raised rs with
  | Some e => Some (Raise e)
  | None => Ok <$> gather_lists rs
  end.

(** [_iter]: [amerge(self._paginators, key=self.__key)], which iterates
    every child through its [__aiter__]. *)
Definition merged_iter (m : Merged XM X W)
  : list (slot T (AiterState (T:=T) (X:=X) (W:=W))) :=
  amerge ((λ c, __aiter__ c.1 c.2) <$> _paginators m).

Definition merged_iter_pull :=
  amerge_pull (__aiter___pull id function) key.

Definition flatten_lazy (fuel : nat) (m : Merged XM X W)
  : option (result (list T) * Merged XM X W) :=
  let it := aislice (merged_iter m) (limit (merged_self m)) in
  match collect (aislice_pull merged_iter_pull) fuel it with
  | None => None
  | Some (r, st) =>
      Some (r, mkMerged (merged_self m)
                 ((λ sl, child_of_state (slot_state sl)) <$> (inner st).2))
  end.

(** The eager branch of [flatten]: [asyncio.gather] of [flatten] of every
    child, [heapq.merge] of the lists and the slice.  When [gather] raises,
    the children still running go on in the background; where they stand
    by then is not told, and they are given as they were at the start. *)
Definition flatten_eager (fuel : nat) (m : Merged XM X W)
  : option (result (list T) * Merged XM X W) :=
  let rs := (λ c, flatten id function fuel c.1 c.2) <$> _paginators m in
  let children :=
    zip_with (λ c r, match r with
                     | Some (_, st) => child_of_state st
                     | None => c
                     end) (_paginators m) rs in
  match gather rs with
  | None => None
  | Some (Raise e) => Some (Raise e, mkMerged (merged_self m) children)
  | Some (Ok lists) =>
      Some (Ok (slice_to (heapq_merge key lists) (limit (merged_self m))),
            mkMerged (merged_self m) children)
  end.

(** [flatten(self, *, lazy=False)]; [tasks] are the coroutines handed to
    [asyncio.create_task] so far, which nobody awaits. *)
Definition merged_flatten (lazy : bool) (fuel : nat) (m : Merged XM X W)
    (tasks : list C)
  : option (result (list T) * Merged XM X W) * list C :=
  let tasks' := tasks ++ [prefetch (merged_self m)] in
  if bool_decide (limit (merged_self m) ≠ None) && lazy
  then (flatten_lazy fuel m, tasks')
  else (flatten_eager fuel m, tasks').
End MergedPaginator.

(** ** Raw records, keyword arguments and the models *)

(** The scalars of a raw record. *)
Inductive pyval : Type :=
| VInt (z : Z)
| VStr (s : string)
| VNone.

Global Instance pyval_eq_dec : EqDecision pyval.
Proof. solve_decision. Defined.

Global Instance pyval_countable : Countable pyval.
Proof.
  refine (inj_countable'
    (λ v, match v with
          | VInt z => inl z
          | VStr s => inr (inl s)
          | VNone => inr (inr ())
          end)
    (λ x, match x with
          | inl z => VInt z
          | inr (inl s) => VStr s
          | inr (inr _) => VNone
          end) _).
  by intros [].
Defined.

(** [cls( **kw, k=v)]: a keyword given twice is a [TypeError]; of its
    message, which begins with a description of the callable, the part that
    names the keyword is kept. *)
Definition kwargs_add (kw : gmap string pyval) (k : string) (v : pyval)
  : result (gmap string pyval) :=
  match kw !! k with
  | Some _ =>
      Raise (mkExc "TypeError"
               ("got multiple values for keyword argument '" +:+ k +:+ "'"))
  | None => Ok (<[k:=v]> kw)
  end.

Definition rbind {A B} (r : result A) (k : A → result B) : result B :=
  match r with
  | Ok a => k a
  | Raise e => Raise e
  end.

Fixpoint rmap_list {A B} (f : A → result B) (l : list A) : result (list B) :=
  match l with
  | [] => Ok []
  | a :: rest =>
      rbind (f a) (λ b, rbind (rmap_list f rest) (λ bs, Ok (b :: bs)))
  end.

Module Transaction.
Record t := mk {
  kind : string;
  id : Z;
  uid : Z;
  time : Z;
  amount : Z;
  reason_id : Z;
  reason : string
}.
End Transaction.

Module ItemTransaction.
Record t := mk {
  base : Transaction.t;
  name : string;
  rarity : Z
}.
End ItemTransaction.

(** [Union[Transaction, ItemTransaction]] *)
Inductive TransactionT : Type :=
| IsTransaction (t : Transaction.t)
| IsItemTransaction (t : ItemTransaction.t).

Definition as_transaction (x : TransactionT) : Transaction.t :=
  match x with
  | IsTransaction t => t
  | IsItemTransaction t => ItemTransaction.base t
  end.

Definition is_item (x : TransactionT) : bool :=
  match x with
  | IsTransaction _ => false
  | IsItemTransaction _ => true
  end.

Section Models.
(** The validators of the model library for [int], [str] and [datetime]
    fields; a [datetime] is kept as its timestamp. *)
Variable int_validator : pyval → option Z.
Variable str_validator : pyval → option string.
Variable datetime_validator : pyval → option Z.

Definition literal_validator (permitted : list string) (v : pyval)
  : option string :=
  match v with
  | VStr s => if bool_decide (s ∈ permitted) then Some s else None
  | _ => None
  end.

(** A required field, read under its alias. *)
Definition field {B} (validator : pyval → option B) (kw : gmap string pyval)
    (alias : string) : option B :=
  v ← kw !! alias; validator v.

(** A field with a default. *)
Definition field_default {B} (validator : pyval → option B)
    (kw : gmap string pyval) (alias : string) (d : B) : option B :=
  match kw !! alias with
  | None => Some d
  | Some v => validator v
  end.

Definition validate_transaction (permitted : list string)
    (kw : gmap string pyval) : option Transaction.t :=
  kind ← field (literal_validator permitted) kw "kind";
  id ← field int_validator kw "id";
  uid ← field int_validator kw "uid";
  time ← field datetime_validator kw "time";
  amount ← field int_validator kw "add_num";
  reason_id ← field int_validator kw "reason";
  reason ← field_default str_validator kw "reason_str" "";
  Some (Transaction.mk kind id uid time amount reason_id reason).

Definition validated {B} (o : option B) : result B :=
  match o with
  | Some b => Ok b
  | None => Raise (mkExc "ValidationError" "validation error")
  end.

(** [Transaction( **kw)] *)
Definition Transaction_init (kw : gmap string pyval) : result Transaction.t :=
  validated (validate_transaction ["primogem"; "crystal"; "resin"] kw).

(** [ItemTransaction( **kw)] *)
Definition ItemTransaction_init (kw : gmap string pyval)
  : result ItemTransaction.t :=
  validated (
    base ← validate_transaction ["artifact"; "weapon"] kw;
    name ← field str_validator kw "name";
    rarity ← field int_validator kw "rank";
    Some (ItemTransaction.mk base name rarity)).
End Models.

(** [str.capitalize] on ASCII letters. *)
Definition ascii_upper (c : ascii) : ascii :=
  let n := nat_of_ascii c in
  if ((97 <=? n) && (n <=? 122))%nat then ascii_of_nat (n - 32) else c.

Definition ascii_lower (c : ascii) : ascii :=
  let n := nat_of_ascii c in
  if ((65 <=? n) && (n <=? 90))%nat then ascii_of_nat (n + 32) else c.

Fixpoint string_lower (s : string) : string :=
  match s with
  | EmptyString => EmptyString
  | String c rest => String (ascii_lower c) (string_lower rest)
  end.

Definition capitalize (s : string) : string :=
  match s with
  | EmptyString => EmptyString
  | String c rest => String (ascii_upper c) (string_lower rest)
  end.

(** [a or b] on an optional string. *)
Definition str_or (a : option string) (b : string) : string :=
  match a with
  | Some s => if bool_decide (s = "") then b else s
  | None => b
  end.

(** ** The client and the concrete paginators *)

(** The requests a paginator makes of [GenshinClient]. *)
Inductive ClientCall : Type :=
| Call_get_banner_types (lang authkey : option string)
| Call__get_transaction_reasons (lang : string)
| Call_request_gacha_info (endpoint : string) (lang authkey : option string)
    (gacha_type size end_id : Z)
| Call_request_transaction (endpoint : string) (lang authkey : option string)
    (end_id size : Z).

Global Instance ClientCall_eq_dec : EqDecision ClientCall.
Proof. solve_decision. Defined.

(** A raw page: a dict whose ["list"] entry holds the raw records. *)
Abbreviation rawpage := (gmap string (list (gmap string pyval))).

(** [GenshinClient], which is not among the sources, as the interface the
    paginators use; [CW] is the state behind the client. *)
Record GenshinClient (CW : Type) := mkClient {
  client_lang : string;
  get_banner_types :
    option string → option string → CW → result (gmap Z string) * CW;
  _get_transaction_reasons : string → CW → result (gmap pyval string) * CW;
  request_gacha_info :
    string → option string → option string → Z → Z → Z → CW →
    result rawpage * CW;
  request_transaction :
    string → option string → option string → Z → Z → CW → result rawpage * CW
}.
Arguments client_lang {CW} _.
Arguments get_banner_types {CW} _.
Arguments _get_transaction_reasons {CW} _.
Arguments request_gacha_info {CW} _.
Arguments request_transaction {CW} _.

(** The state behind the client and the coroutines of the client created
    so far, in the order of their creation. *)
Record ClientWorld (CW : Type) := mkWorld {
  cw : CW;
  calls : list ClientCall
}.
Arguments mkWorld {CW} cw calls.
Arguments cw {CW} _.
Arguments calls {CW} _.

(** The attributes [WishHistory], [Transactions] and the merged paginators
    add to [IDPagintor]. *)
Record WishHistoryExt := mkWishHistoryExt {
  wh_authkey : option string;
  wh_banner_type : Z;
  wh_lang : option string
}.

Record TransactionsExt := mkTransactionsExt {
  tr_authkey : option string;
  tr_kind : string;
  tr_lang : option string
}.

Record MergedExt := mkMergedExt {
  mg_authkey : option string;
  mg_lang : option string
}.

Section Client.
Context {CW : Type}.
Variable client : GenshinClient CW.

(** Coroutines over the client: state and exceptions. *)
Definition M (A : Type) : Type :=
  ClientWorld CW → result A * ClientWorld CW.

Definition ret {A} (a : A) : M A := λ w, (Ok a, w).

Definition bind {A B} (m : M A) (k : A → M B) : M B :=
  λ w, match m w with
       | (Ok a, w') => k a w'
       | (Raise e, w') => (Raise e, w')
       end.

Definition lift {A} (r : result A) : M A := λ w, (r, w).

(** [await client.method(...)] *)
Definition call {A} (c : ClientCall) (f : CW → result A * CW) : M A :=
  λ w, let '(r, s) := f (cw w) in (r, mkWorld s (calls w ++ [c])).

(** [asyncio.create_task(client.method(...))]: the coroutine is created,
    which [calls] records, and scheduled; its body has not begun.  The task
    is the body still to run. *)
Definition create_task {A} (c : ClientCall) (f : CW → result A * CW)
  : M (CW → result A * CW) :=
  λ w, (Ok f, mkWorld (cw w) (calls w ++ [c])).

(** [await task] for a task created before: the caller gives up control
    and the body of the task runs.  The requests of the client are taken to
    run to their end once begun, so that a request awaited between the
    creation of a task and its [await] runs before the body of the task. *)
Definition await_task {A} (task : CW → result A * CW) : M A :=
  λ w, let '(r, s) := task (cw w) in (r, mkWorld s (calls w)).

Notation "x <~ m ;; k" := (bind m (λ x, k))
  (at level 200, m at level 99, k at level 200, only parsing).

(** [data["list"]] *)
Definition getitem_list (data : rawpage) : result (list (gmap string pyval)) :=
  match data !! "list" with
  | Some l => Ok l
  | None => Raise (mkExc "KeyError" "list")
  end.

Section WishHistory.
(** The model [Wish], which is not among the sources. *)
Context {Wish : Type}.
Variable Wish_init : gmap string pyval → result Wish.

(** [WishHistory._get_banner_name] *)
Definition _get_banner_name (self : WishHistoryExt) : M string :=
  banner_types <~ call (Call_get_banner_types (wh_lang self) (wh_authkey self))
                    (get_banner_types client (wh_lang self) (wh_authkey self)) ;;
  match banner_types !! wh_banner_type self with
  | Some n => ret n
  | None => lift (Raise (mkExc "KeyError" (pretty (wh_banner_type self))))
  end.

(** [WishHistory.function] *)
Definition WishHistory_function (self : WishHistoryExt) (end_id : Z)
  : M (list Wish) :=
  data <~ call (Call_request_gacha_info "getGachaLog" (wh_lang self)
                  (wh_authkey self) (wh_banner_type self) page_size end_id)
            (request_gacha_info client "getGachaLog" (wh_lang self)
               (wh_authkey self) (wh_banner_type self) page_size end_id) ;;
  banner_name <~ _get_banner_name self ;;
  l <~ lift (getitem_list data) ;;
  lift (rmap_list
          (λ i, rbind (kwargs_add i "banner_name" (VStr banner_name)) Wish_init)
          l).
End WishHistory.

Section Transactions.
Variable int_validator : pyval → option Z.
Variable str_validator : pyval → option string.
Variable datetime_validator : pyval → option Z.

(** The body of the loop of [Transactions.function]. *)
Definition make_transaction (self : TransactionsExt)
    (reasons : gmap pyval string) (trans : gmap string pyval)
  : result TransactionT :=
  let is_item := bool_decide (is_Some (trans !! "name")) in
  match trans !! "reason" with
  | None => Raise (mkExc "KeyError" "reason")
  | Some r =>
      let reason := default "" (reasons !! r) in
      rbind (kwargs_add trans "reason_str" (VStr reason)) (λ kw1,
      rbind (kwargs_add kw1 "kind" (VStr (tr_kind self))) (λ kw,
        if is_item
        then rbind (ItemTransaction_init int_validator str_validator
                      datetime_validator kw)
                   (λ t, Ok (IsItemTransaction t))
        else rbind (Transaction_init int_validator str_validator
                      datetime_validator kw)
                   (λ t, Ok (IsTransaction t))))
  end.

(** [Transactions.function] *)
Definition Transactions_function (self : TransactionsExt) (end_id : Z)
  : M (list TransactionT) :=
  let endpoint := ("get" +:+ capitalize (tr_kind self) +:+ "Log") in
  let lang := str_or (tr_lang self) (client_lang client) in
  reasons_task <~ create_task (Call__get_transaction_reasons lang)
                    (_get_transaction_reasons client lang) ;;
  data <~ call (Call_request_transaction endpoint (tr_lang self)
                  (tr_authkey self) end_id 20)
            (request_transaction client endpoint (tr_lang self)
               (tr_authkey self) end_id 20) ;;
  reasons <~ await_task reasons_task ;;
  l <~ lift (getitem_list data) ;;
  lift (rmap_list (make_transaction self reasons) l).
End Transactions.

(** The coroutine both merged paginators hand to [asyncio.create_task]. *)
Definition merged_prefetch (self : IDPagintor MergedExt) : ClientCall :=
  Call_get_banner_types (mg_lang (ext self)) (mg_authkey (ext self)).

Section MergedWishHistory.
Context {Wish : Type}.
Variable Wish_init : gmap string pyval → result Wish.
Variable Wish_id : Wish → Z.
(** [wish.time.timestamp()] *)
Variable Wish_timestamp : Wish → Z.
(** The decision of the event loop, as for [gather]. *)
Variable earliest : list (nat * PyExc) → nat.

(** [MergedWishHistory.__init__]; [w] is the outside at construction. *)
Definition MergedWishHistory_init (lang authkey : option string)
    (limit end_id : option Z) (w : ClientWorld CW)
  : Merged MergedExt WishHistoryExt (ClientWorld CW) :=
  mkMerged
    (IDPagintor_init limit end_id (mkMergedExt authkey lang))
    ((λ b, (IDPagintor_init limit end_id (mkWishHistoryExt authkey b lang),
            mkEnv w []))
       <$> [100; 200; 301; 302]).

Definition MergedWishHistory_key (wish : Wish) : Z := - Wish_timestamp wish.

Definition MergedWishHistory_flatten :=
  merged_flatten Wish_id (WishHistory_function Wish_init)
    MergedWishHistory_key merged_prefetch earliest.
End MergedWishHistory.

Section MergedTransactions.
Variable int_validator : pyval → option Z.
Variable str_validator : pyval → option string.
Variable datetime_validator : pyval → option Z.
(** The decision of the event loop, as for [gather]. *)
Variable earliest : list (nat * PyExc) → nat.

(** [MergedTransactions.__init__] *)
Definition MergedTransactions_init (lang authkey : option string)
    (limit end_id : option Z) (w : ClientWorld CW)
  : Merged MergedExt TransactionsExt (ClientWorld CW) :=
  mkMerged
    (IDPagintor_init limit end_id (mkMergedExt authkey lang))
    ((λ kind, (IDPagintor_init limit end_id (mkTransactionsExt authkey kind lang),
               mkEnv w []))
       <$> ["primogem"; "crystal"; "resin"; "artifact"; "weapon"]).

Definition MergedTransactions_key (trans : TransactionT) : Z :=
  - Transaction.time (as_transaction trans).

Definition MergedTransactions_flatten :=
  merged_flatten (λ t, Transaction.id (as_transaction t))
    (Transactions_function int_validator str_validator datetime_validator)
    MergedTransactions_key merged_prefetch earliest.
End MergedTransactions.
End Client.

(** ** The pages of a paginator *)

Section Pages.
Context {T X W : Type}.
Variable id : T → Z.
Variable function : X → Z → W → result (list T) * W.

(** The loop of [_iter] without its [yield]: [next_page] is called for as
    long as the paginator is not exhausted; the pages it returns, in order.
    [None] is a run that has not finished within [fuel] calls. *)
Fixpoint next_pages (fuel : nat) (self : IDPagintor X) (env : Env W)
  : option (result (list (list T)) * IDPagintor X * Env W) :=
  match fuel with
  | O => None
  | Datatypes.S fuel' =>
      if exhausted self then Some (Ok [], self, env)
      else
        match next_page id function self env with
        | (Raise e, self', env') => Some (Raise e, self', env')
        | (Ok data, self', env') =>
            match next_pages fuel' self' env' with
            | Some (Ok pages, self'', env'') => Some (Ok (data :: pages), self'', env'')
            | other => other
            end
        end
  end.
End Pages.

(** ** Auxiliary definitions for the statements *)

(** The state a resumption leaves the generator in. *)
Definition step_state {A S} (r : step A S) : S :=
  match r with
  | Yield _ s | Tau s | Stop s | Throw _ s => s
  end.

(** What [aislice] lets through of the items [l] still to come, when the
    next item has index [i] and [stop] is not negative. *)
Definition aislice_cut {A} (stop : option Z) (i : Z) (l : list A) : list A :=
  if truthy stop then take (Z.to_nat (default 0 stop - (i - 1))) l else l.

(** The items the source behind a slot of [amerge] has still to give. *)
Definition slot_yields {A S} (pull : S → step A S) (sl : slot A S) (l : list A)
  : Prop :=
  match sl with
  | Need s => ∃ s', drains pull s l s'
  | Pending a s => ∃ l' s', l = a :: l' ∧ drains pull s l' s'
  | Dead _ => l = []
  end.

Definition slot_filled {A S} (sl : slot A S) : Prop :=
  match sl with
  | Need _ => False
  | _ => True
  end.


(** A small service for examples: source [x] holds ids in decreasing order
    and hands out, twenty at a time, those below the cursor; a source it does
    not know fails. *)
Module Fixture.
Definition serve (x : nat) (c : Z) (w : list (list Z))
  : result (list Z) * list (list Z) :=
  match w !! x with
  | Some db => (Ok (take 20 (filter (λ i, c = 0 ∨ i < c) db)), w)
  | None => (Raise (mkExc "UpstreamFetchError" "unknown source"), w)
  end.

Definition ident (i : Z) : Z := i.
Definition newest_first (i : Z) : Z := - i.

Definition paginator (limit : option Z) (x : nat) : IDPagintor nat :=
  IDPagintor_init limit (Some 0) x.

Definition outside (w : list (list Z)) : Env (list (list Z)) := mkEnv w [].

Definition merged (limit : option Z) (w : list (list Z)) (xs : list nat)
  : Merged unit nat (list (list Z)) :=
  mkMerged (IDPagintor_init limit (Some 0) ())
           ((λ x, (paginator limit x, outside w)) <$> xs).

(** An event loop for which the first child in the list is the first to
    raise. *)
Definition in_order (failures : list (nat * PyExc)) : nat := O.

(** A service that serves the first page and fails at every later cursor. *)
Definition serve_then_fail (x : nat) (c : Z) (w : list (list Z))
  : result (list Z) * list (list Z) :=
  if decide (c = 0) then serve x c w
  else (Raise (mkExc "UpstreamFetchError" "connection lost"), w).

(** A service that fails the way an exhausted paginator does. *)
Definition serve_no_more (x : unit) (c : Z) (w : unit) : result (list Z) * unit :=
  (Raise (mkExc "Exception" "No more pages"), w).

(** Validators that take an [int] for an [int] or a [datetime] and a
    [str] for a [str]. *)
Definition int_validator (v : pyval) : option Z :=
  match v with
  | VInt z => Some z
  | _ => None
  end.

Definition str_validator (v : pyval) : option string :=
  match v with
  | VStr s => Some s
  | _ => None
  end.

(** Two raw records of artifacts; the table of reasons knows the reason
    of the first only. *)
Definition record (id reason : Z) (name : string) : gmap string pyval :=
  list_to_map
    [("id", VInt id); ("uid", VInt 700000001); ("time", VInt (1600000000 + id));
     ("add_num", VInt 1); ("reason", VInt reason); ("name", VStr name);
     ("rank", VInt 5)].

Definition client : GenshinClient unit :=
  mkClient unit "en-us"
    (λ _ _ s, (Ok ∅, s))
    (λ _ s, (Ok {[ VInt 1004 := "Domain reward" ]}, s))
    (λ _ _ _ _ _ _ s, (Ok ∅, s))
    (λ _ _ _ _ _ s,
       (Ok {[ "list" := [record 2 1004 "Gladiator's Nostalgia";
                         record 1 77 "Wanderer's String-Kettle"] ]}, s)).

Definition artifacts : TransactionsExt :=
  mkTransactionsExt None "artifact" (Some "en-us").

Definition artifact (id reason_id : Z) (reason name : string) : TransactionT :=
  IsItemTransaction
    (ItemTransaction.mk
       (Transaction.mk "artifact" id 700000001 (1600000000 + id) 1 reason_id reason)
       name 5).

Definition three_sources : list (list Z) := [[7; 4; 1]; [5; 2]; [9; 8; 6; 3]].

(** A raw record of primogems: it has no ["name"]. *)
Definition plain_record (id reason : Z) : gmap string pyval :=
  list_to_map
    [("id", VInt id); ("uid", VInt 700000001); ("time", VInt (1600000000 + id));
     ("add_num", VInt 60); ("reason", VInt reason)].

(** A client that keeps the requests it has served, in their order; the
    record of its page has for its id the number of requests served before
    the page. *)
Definition ordered_client : GenshinClient (list string) :=
  mkClient (list string) "en-us"
    (λ _ _ s, (Ok ∅, s ++ ["banner types"]))
    (λ _ s, (Ok {[ VInt 1004 := "Daily commission" ]}, s ++ ["reasons"]))
    (λ _ _ _ _ _ _ s, (Ok ∅, s ++ ["wishes"]))
    (λ _ _ _ _ _ s,
       (Ok {[ "list" := [plain_record (Z.of_nat (length s)) 1004] ]},
        s ++ ["page"])).


(** The same client when its page holds a record without ["reason"]. *)
Definition careless_ordered_client : GenshinClient (list string) :=
  mkClient (list string) "en-us"
    (λ _ _ s, (Ok ∅, s ++ ["banner types"]))
    (λ _ s, (Ok {[ VInt 1004 := "Daily commission" ]}, s ++ ["reasons"]))
    (λ _ _ _ _ _ _ s, (Ok ∅, s ++ ["wishes"]))
    (λ _ _ _ _ _ s,
       (Ok {[ "list" := [delete "reason"
                           (plain_record (Z.of_nat (length s)) 1004);
                         plain_record 1 1004] ]},
        s ++ ["page"])).

Definition primogems : TransactionsExt :=
  mkTransactionsExt None "primogem" (Some "en-us").

Definition primogem (id reason_id : Z) (reason : string) : TransactionT :=
  IsTransaction
    (Transaction.mk "primogem" id 700000001 (1600000000 + id) 60 reason_id reason).

(** A client for wishes: one banner and a page of two raw records; a wish
    is kept as the keyword arguments it is made from. *)
Definition wish_record (id : Z) (name : string) : gmap string pyval :=
  list_to_map [("id", VInt id); ("name", VStr name)].

Definition wish_client : GenshinClient unit :=
  mkClient unit "en-us"
    (λ _ _ s, (Ok {[ 301 := "Character Event Wish" ]}, s))
    (λ _ s, (Ok ∅, s))
    (λ _ _ _ _ _ _ s,
       (Ok {[ "list" := [wish_record 2 "Keqing"; wish_record 1 "Slingshot"] ]}, s))
    (λ _ _ _ _ _ s, (Ok ∅, s)).

Definition Wish_init (kw : gmap string pyval) : result (gmap string pyval) :=
  Ok kw.

Definition character_banner : WishHistoryExt := mkWishHistoryExt None 301 None.
Definition unknown_banner : WishHistoryExt := mkWishHistoryExt None 999 None.
End Fixture.

(** * Properties *)

Section GeneratorFacts.
Context {A S : Type}.
Variable pull : S → step A S.

Lemma collect_drains fuel s l s' :
  collect pull fuel s = Some (Ok l, s') → drains pull s l s'.
Proof.
  revert s l s'. induction fuel as [|fuel IH]; intros s l s'; simpl; [done|].
  destruct (pull s) as [a s1|s1|s1|e s1] eqn:Hp.
  - destruct (collect pull fuel s1) as [[[l1|e1] s2]|] eqn:Hc; [|done..].
    intros [= <- <-]. eapply drains_yield; eauto.
  - intros Hc. eapply drains_tau; eauto.
  - intros [= <- <-]. by apply drains_stop.
  - done.
Qed.

Lemma drains_collect s l s' :
  drains pull s l s' →
  ∃ N, ∀ fuel, (N ≤ fuel)%nat → collect pull fuel s = Some (Ok l, s').
Proof.
  induction 1 as [s s' Hp|s s1 l s2 Hp _ [N IH]|s a s1 l s2 Hp _ [N IH]].
  - exists 1%nat. intros [|fuel] ?; [lia|]. simpl. by rewrite Hp.
  - exists (Datatypes.S N). intros [|fuel] ?; [lia|]. simpl. rewrite Hp.
    apply IH. lia.
  - exists (Datatypes.S N). intros [|fuel] ?; [lia|]. simpl. rewrite Hp.
    rewrite IH by lia. done.
Qed.

Lemma collect_mono fuel fuel' s r s' :
  collect pull fuel s = Some (r, s') → (fuel ≤ fuel')%nat →
  collect pull fuel' s = Some (r, s').
Proof.
  revert fuel' s r s'. induction fuel as [|fuel IH]; intros fuel' s r s'; [done|].
  destruct fuel' as [|fuel']; [lia|]. simpl. intros Hc Hle.
  destruct (pull s) as [a s1|s1|s1|e s1]; try done.
  - destruct (collect pull fuel s1) as [[r1 s2]|] eqn:Hc1; [|done].
    rewrite (IH fuel' s1 r1 s2) by (done || lia). done.
  - apply IH; [done|lia].
Qed.

(** A property of the state that every resumption keeps is kept by a
    whole run. *)
Lemma collect_invariant (P : S → Prop) :
  (∀ s, P s → P (step_state (pull s))) →
  ∀ fuel s r s', P s → collect pull fuel s = Some (r, s') → P s'.
Proof.
  intros Hstep. induction fuel as [|fuel IH]; intros s r s' HP; [done|].
  simpl. specialize (Hstep s HP).
  destruct (pull s) as [a s1|s1|s1|e s1]; simpl in Hstep.
  - destruct (collect pull fuel s1) as [[r1 s2]|] eqn:Hc; [|done].
    intros Heq. apply (IH s1 r1 s2 Hstep) in Hc.
    destruct r1; by simplify_eq.
  - by apply IH.
  - by intros [= <- <-].
  - by intros [= <- <-].
Qed.

(** An exception a run ends with was thrown by a resumption. *)
Lemma collect_raise fuel s e s' :
  collect pull fuel s = Some (Raise e, s') →
  ∃ s0 s1, pull s0 = Throw e s1.
Proof.
  revert s. induction fuel as [|fuel IH]; intros s; [done|]. simpl.
  destruct (pull s) as [a s1|s1|s1|e1 s1] eqn:Hp.
  - destruct (collect pull fuel s1) as [[[l1|e1] s2]|] eqn:Hc; [done| |done].
    intros [= <- <-]. eauto.
  - eauto.
  - done.
  - intros [= <- <-]. eauto.
Qed.
End GeneratorFacts.

Section AisliceFacts.
Context {A S : Type}.
Variable pull : S → step A S.

Lemma aislice_pull_stop (st : AisliceState S) :
  stop (step_state (aislice_pull pull st)) = stop st.
Proof.
  unfold aislice_pull. destruct (aislice_done _ _); [done|].
  destruct (inner st) as [i s]. simpl.
  by destruct (pull s).
Qed.

(** [aislice] resumes the generator it wraps at most once. *)
Lemma aislice_pull_inner (st : AisliceState S) :
  (inner (step_state (aislice_pull pull st))).2 = (inner st).2 ∨
  (inner (step_state (aislice_pull pull st))).2 = step_state (pull (inner st).2).
Proof.
  unfold aislice_pull. destruct (aislice_done _ _); [by left|].
  destruct (inner st) as [i s]. simpl. right.
  by destruct (pull s).
Qed.

Lemma aislice_pull_invariant (P : S → Prop) :
  (∀ s, P s → P (step_state (pull s))) →
  ∀ st, P (inner st).2 → P (inner (step_state (aislice_pull pull st))).2.
Proof.
  intros Hstep st HP.
  destruct (aislice_pull_inner st) as [-> | ->]; auto.
Qed.

(** An exception out of [aislice] is one of the generator it wraps. *)
Lemma aislice_pull_throw st e st' :
  aislice_pull pull st = Throw e st' →
  ∃ s', pull (inner st).2 = Throw e s'.
Proof.
  unfold aislice_pull. destruct (aislice_done _ _); [done|].
  destruct (inner st) as [i s]. simpl.
  destruct (pull s) as [a s1|s1|s1|e1 s1]; try done.
  intros [= <- _]. eauto.
Qed.
End AisliceFacts.

Section PaginatorFacts.
Context {T X W : Type}.
Variable id : T → Z.
Variable function : X → Z → W → result (list T) * W.

#[local] Abbreviation next_page' := (next_page id function).
#[local] Abbreviation _iter_pull' := (_iter_pull id function).
#[local] Abbreviation flatten' := (flatten id function).

Lemma next_page_exhausted (self : IDPagintor X) (env : Env W) :
  exhausted self = true →
  next_page' self env = (Raise (mkExc "Exception" "No more pages"), self, env).
Proof.
  unfold exhausted, next_page. by destruct (end_id self).
Qed.

Lemma next_page_frame (self : IDPagintor X) env r self' env' :
  next_page' self env = (r, self', env') →
  limit self' = limit self ∧ ext self' = ext self.
Proof.
  unfold next_page, call_function.
  destruct (end_id self) as [c|]; [|by intros [= <- <- <-]].
  destruct (function _ _ _) as [[data|e] w]; [|by intros [= <- <- <-]].
  destruct (_ <? _); [by intros [= <- <- <-]|].
  destruct (last data); by intros [= <- <- <-].
Qed.

(** An exception out of [next_page] on a paginator that is not exhausted
    is the exception [function] raised. *)
Lemma next_page_raise (self : IDPagintor X) env c e self' env' :
  end_id self = Some c →
  next_page' self env = (Raise e, self', env') →
  (function (ext self) c (world env)).1 = Raise e.
Proof.
  unfold next_page, call_function. intros ->.
  destruct (function _ _ _) as [[data|e0] w]; [|by intros [= <- <- <-]].
  simpl. destruct (_ <? _) eqn:Hlt; [done|].
  destruct data as [|x data]; [done|].
  destruct (last (x :: data)) eqn:Hlast; [done|].
  by apply last_None in Hlast.
Qed.

Lemma _iter_pull_frame (st : IterState T X W) :
  limit (self_of (step_state (_iter_pull' st))) = limit (self_of st) ∧
  ext (self_of (step_state (_iter_pull' st))) = ext (self_of st).
Proof.
  unfold _iter_pull. destruct (page st); [|done].
  destruct (exhausted _); [done|].
  destruct (next_page' _ _) as [[[data|e] self'] env'] eqn:Hn;
    by apply next_page_frame in Hn.
Qed.

Lemma _iter_pull_exhausted (st : IterState T X W) :
  exhausted (self_of st) = true →
  self_of (step_state (_iter_pull' st)) = self_of st ∧
  env_of (step_state (_iter_pull' st)) = env_of st.
Proof.
  intros Hex. unfold _iter_pull. destruct (page st); [|done].
  by rewrite Hex.
Qed.

(** An exception out of [_iter] is an exception [function] raised:
    [_iter] tests [exhausted] before it asks for a page. *)
Lemma _iter_pull_throw (st : IterState T X W) e st' :
  _iter_pull' st = Throw e st' →
  ∃ x c w, (function x c w).1 = Raise e.
Proof.
  unfold _iter_pull. destruct (page st); [|done].
  unfold exhausted. destruct (end_id (self_of st)) as [c|] eqn:Hc; [|done].
  destruct (next_page' _ _) as [[[data|e0] self'] env'] eqn:Hn; [done|].
  intros [= <- _]. eapply next_page_raise in Hn; eauto.
Qed.

Lemma flatten_raise fuel (self : IDPagintor X) env e st :
  flatten' fuel self env = Some (Raise e, st) →
  ∃ x c w, (function x c w).1 = Raise e.
Proof.
  intros Hc. apply collect_raise in Hc as (s0 & s1 & Hp).
  apply aislice_pull_throw in Hp as [s' Hp].
  by apply _iter_pull_throw in Hp.
Qed.

Lemma flatten_exhausted fuel (self : IDPagintor X) env :
  exhausted self = true →
  flatten' (Datatypes.S fuel) self env = Some (Ok [], __aiter__ self env).
Proof.
  intros Hex. unfold flatten, __aiter__, aislice, aenumerate. simpl.
  unfold __aiter___pull, aislice_pull. simpl.
  unfold _iter_pull. simpl. by rewrite Hex.
Qed.
End PaginatorFacts.

Section PaginatorClaims.
Context {T X W : Type}.
Variable id : T → Z.
Variable function : X → Z → W → result (list T) * W.

(** C2: on a paginator that is not exhausted, [next_page] calls [function]
    with the current cursor and returns the page as it is; if the page is
    shorter than the page size 20 the paginator is exhausted afterwards,
    otherwise the cursor is the id of the last item of the page and the
    paginator is not exhausted; so it is exhausted exactly when the page
    was short (an empty page included). *)
Theorem next_page_advances (self : IDPagintor X) (env : Env W) c data w' :
  end_id self = Some c →
  function (ext self) c (world env) = (Ok data, w') →
  ∃ self',
    next_page id function self env
      = (Ok data, self', mkEnv w' (fetches env ++ [c])) ∧
    (Z.of_nat (length data) < page_size → end_id self' = None) ∧
    (page_size ≤ Z.of_nat (length data) →
       ∃ x, last data = Some x ∧ end_id self' = Some (id x)) ∧
    (exhausted self' = true ↔ Z.of_nat (length data) < 20) ∧
    (data = [] → exhausted self' = true).
Proof.
  intros Hc Hf. unfold next_page, call_function. rewrite Hc, Hf.
  unfold page_size.
  destruct (Z.of_nat (length data) <? 20) eqn:Hlt.
  - apply Z.ltb_lt in Hlt. eexists. split; [done|]. simpl.
    repeat split; try done; lia.
  - apply Z.ltb_ge in Hlt.
    destruct (last data) as [x|] eqn:Hlast.
    + eexists. split; [done|]. unfold exhausted. simpl.
      repeat split; try done; try lia; eauto.
      intros ->. simpl in Hlt. lia.
    + apply last_None in Hlast. subst data. simpl in Hlt. lia.
Qed.

(** C6, as the code has it: on an exhausted paginator [next_page] raises
    the plain [Exception("No more pages")], calls [function] not at all
    and leaves paginator and outside as they were, so that the paginator is
    exhausted after the call as before it; an exception out of [next_page]
    on a paginator that is not exhausted is the very exception [function]
    raised, one call of [function] is logged, and the paginator is, as
    before the call, not exhausted: the paginator tells the caller which
    of the two has happened, whatever the exception is. *)
Theorem next_page_exhausted_raises (self : IDPagintor X) (env : Env W) :
  exhausted self = true →
  next_page id function self env
    = (Raise (mkExc "Exception" "No more pages"), self, env) ∧
  exhausted (next_page id function self env).1.2 = true ∧
  fetches (next_page id function self env).2 = fetches env ∧
  (∀ (self2 : IDPagintor X) env2 e self2' env2',
     exhausted self2 = false →
     next_page id function self2 env2 = (Raise e, self2', env2') →
     ∃ c, end_id self2 = Some c ∧
          (function (ext self2) c (world env2)).1 = Raise e ∧
          fetches env2' = fetches env2 ++ [c] ∧
          self2' = self2 ∧
          exhausted self2' = false).
Proof.
  intros Hex. pose proof (next_page_exhausted id function self env Hex) as Hn.
  split; [exact Hn|]. rewrite Hn. simpl. split; [exact Hex|]. split; [done|].
  intros self2 env2 e self2' env2' Hne Hn2.
  assert (self2' = self2 ∧ ∃ c, end_id self2 = Some c ∧
                                fetches env2' = fetches env2 ++ [c]) as [-> (c & Hc & Hlog)].
  { revert Hn2. unfold exhausted in Hne. unfold next_page, call_function.
    destruct (end_id self2) as [c|] eqn:Hc; [|done].
    destruct (function _ _ _) as [[data|e0] w].
    - destruct (_ <? _); [done|].
      destruct (last data); [done|]. intros [= <- <- <-]. eauto.
    - intros [= <- <- <-]. eauto. }
  exists c. split; [done|]. split; [by eapply next_page_raise|]. done.
Qed.

(** C7: exhaustion is terminal.  On an exhausted paginator [next_page]
    changes neither the paginator nor the outside; no resumption of an
    iteration and no run of one changes them, so the paginator stays
    exhausted and [function] is not called; a new iteration and [flatten]
    yield nothing, however often they are repeated. *)
Theorem exhausted_terminal (self : IDPagintor X) (env : Env W) :
  exhausted self = true →
  (next_page id function self env).1.2 = self ∧
  (next_page id function self env).2 = env ∧
  (∀ st : AiterState,
     state_self st = self →
     state_self (step_state (__aiter___pull id function st)) = self ∧
     state_env (step_state (__aiter___pull id function st)) = state_env st) ∧
  (∀ fuel (st : AiterState) r st',
     state_self st = self →
     collect (__aiter___pull id function) fuel st = Some (r, st') →
     state_self st' = self ∧ state_env st' = state_env st) ∧
  (∀ fuel,
     flatten id function (Datatypes.S fuel) self env
       = Some (Ok [], __aiter__ self env)) ∧
  state_self (__aiter__ (T:=T) self env) = self ∧
  state_env (__aiter__ (T:=T) self env) = env.
Proof.
  intros Hex. rewrite next_page_exhausted by done.
  assert (Hstep : ∀ e (st : AiterState),
    state_self st = self ∧ state_env st = e →
    state_self (step_state (__aiter___pull id function st)) = self ∧
    state_env (step_state (__aiter___pull id function st)) = e).
  { intros e st HP. unfold state_self, state_env, __aiter___pull.
    apply (aislice_pull_invariant (_iter_pull id function)
             (λ s, self_of s = self ∧ env_of s = e)); [|done].
    intros s [Hs He].
    destruct (_iter_pull_exhausted id function s) as [-> ->]; [|done].
    by rewrite Hs. }
  split; [done|]. split; [done|].
  split; [|split; [|split; [|done]]].
  - intros st Hst. by apply (Hstep (state_env st)).
  - intros fuel st r st' Hst Hc.
    refine (collect_invariant _
              (λ s, state_self s = self ∧ state_env s = state_env st)
              _ fuel st r st' _ Hc); [|done].
    intros s Hs. by apply Hstep.
  - intros fuel. by apply flatten_exhausted.
Qed.

(** C9: of the attributes of a paginator only [end_id] is ever assigned:
    [next_page], every resumption of an iteration and [flatten] leave
    [limit] and the attributes of the subclass ([authkey] among them) as
    they were ([page_size] is an attribute of the class, which nothing
    assigns); and [next_page] on an exhausted paginator leaves the whole
    state as it was. *)
Theorem operations_frame (self : IDPagintor X) (env : Env W) :
  (∀ r self' env',
     next_page id function self env = (r, self', env') →
     self' = set_end_id (end_id self') self) ∧
  (∀ st : AiterState,
     state_self st = self →
     let self' := state_self (step_state (__aiter___pull id function st)) in
     self' = set_end_id (end_id self') self) ∧
  (∀ fuel r st',
     flatten id function fuel self env = Some (r, st') →
     state_self st' = set_end_id (end_id (state_self st')) self) ∧
  (exhausted self = true →
     ∃ e, next_page id function self env = (Raise e, self, env)).
Proof.
  assert (Hset : ∀ p : IDPagintor X,
    limit p = limit self ∧ ext p = ext self ↔ p = set_end_id (end_id p) self).
  { intros [l e x]. unfold set_end_id. simpl. split.
    - by intros [-> ->].
    - by intros [= -> ->]. }
  assert (Hstep : ∀ st : AiterState,
    limit (state_self st) = limit self ∧ ext (state_self st) = ext self →
    limit (state_self (step_state (__aiter___pull id function st))) = limit self ∧
    ext (state_self (step_state (__aiter___pull id function st))) = ext self).
  { intros st HP. unfold state_self, __aiter___pull.
    apply (aislice_pull_invariant (_iter_pull id function)
             (λ s, limit (self_of s) = limit self ∧ ext (self_of s) = ext self));
      [|done].
    intros s [Hl He].
    destruct (_iter_pull_frame id function s) as [-> ->]. done. }
  split; [|split; [|split]].
  - intros r self' env' Hn. apply Hset. by eapply next_page_frame.
  - intros st <-. simpl. apply Hset. by apply Hstep.
  - intros fuel r st' Hf. apply Hset.
    refine (collect_invariant _
              (λ s, limit (state_self s) = limit self ∧
                    ext (state_self s) = ext self)
              Hstep fuel _ r st' _ Hf). done.
  - intros Hex. eexists. by apply next_page_exhausted.
Qed.
End PaginatorClaims.

Section AisliceDrains.
Context {A S : Type}.
Variable pull : S → step A S.

(** [aislice] over a generator that yields [l] and stops: with a falsy
    [stop] ([None] or [0]) it yields all of [l], with a [stop] of at least
    one the first [stop] items. *)
Lemma aislice_drains (stop : option Z) s l s' :
  drains pull s l s' →
  (truthy stop = true → 1 ≤ default 0 stop) →
  ∀ last i,
    (last = None ∧ i = 1) ∨ last = Some (i - 1) →
    ∃ st', drains (aislice_pull pull) (mkAislice stop last (i, s))
             (aislice_cut stop i l) st'.
Proof.
  intros Hd Hstop.
  induction Hd as [s s' Hp|s s1 l s2 Hp _ IH|s a s1 l s2 Hp _ IH];
    intros last i Hinv.
  - replace (aislice_cut stop i []) with (@nil A)
      by (unfold aislice_cut; destruct (truthy stop); by rewrite ?take_nil).
    destruct (aislice_done stop last) eqn:Hdone; eexists; apply drains_stop;
      unfold aislice_pull; simpl; rewrite Hdone; [done|by rewrite Hp].
  - destruct (aislice_done stop last) eqn:Hdone.
    + eexists. unfold aislice_cut.
      destruct last as [j|]; [|done]. simpl in Hdone.
      apply andb_true_iff in Hdone as [Ht Hle]. rewrite Ht.
      apply Z.leb_le in Hle. destruct Hinv as [[? _]|[= ->]]; [done|].
      replace (Z.to_nat _) with O by lia. rewrite take_0.
      apply drains_stop. unfold aislice_pull. simpl. by rewrite Ht, (proj2 (Z.leb_le _ _) Hle).
    + destruct (IH last i Hinv) as [st' Hst]. exists st'.
      eapply drains_tau; [|exact Hst].
      unfold aislice_pull. simpl. by rewrite Hdone, Hp.
  - destruct (aislice_done stop last) eqn:Hdone.
    + eexists. unfold aislice_cut.
      destruct last as [j|]; [|done]. simpl in Hdone.
      apply andb_true_iff in Hdone as [Ht Hle]. rewrite Ht.
      apply Z.leb_le in Hle. destruct Hinv as [[? _]|[= ->]]; [done|].
      replace (Z.to_nat _) with O by lia. rewrite take_0.
      apply drains_stop. unfold aislice_pull. simpl. by rewrite Ht, (proj2 (Z.leb_le _ _) Hle).
    + destruct (IH (Some i) (i + 1)) as [st' Hst].
      { right. f_equal. lia. }
      exists st'.
      assert (aislice_cut stop i (a :: l) = a :: aislice_cut stop (i + 1) l) as ->.
      { unfold aislice_cut. destruct (truthy stop) eqn:Ht; [|done].
        specialize (Hstop eq_refl).
        assert (i - 1 < default 0 stop).
        { destruct Hinv as [[-> ->] | ->]; [lia|].
          simpl in Hdone. rewrite Ht in Hdone. simpl in Hdone.
          apply Z.leb_gt in Hdone. lia. }
        replace (Z.to_nat (default 0 stop - (i - 1)))
          with (Datatypes.S (Z.to_nat (default 0 stop - (i + 1 - 1)))) by lia.
        done. }
      eapply drains_yield; [|exact Hst].
      unfold aislice_pull. simpl. by rewrite Hdone, Hp.
Qed.

Lemma aislice_cut_all (stop : option Z) (l : list A) :
  stop = None ∨ (∃ L, stop = Some L ∧ Z.of_nat (length l) ≤ L) →
  aislice_cut stop 1 l = l.
Proof.
  unfold aislice_cut. intros [->|(L & -> & HL)]; [done|].
  destruct (truthy (Some L)); [|done]. simpl.
  apply take_ge. lia.
Qed.
End AisliceDrains.

Section MergeFacts.
Context {A : Type}.
Variable key : A → Z.


Lemma select_min_None (heads : list (option A)) :
  select_min key heads = None ↔ Forall (λ h, h = None) heads.
Proof.
  induction heads as [|[a|] heads IH]; simpl.
  - split; [constructor|done].
  - split.
    + destruct (select_min key heads) as [[j b]|]; [|done].
      by destruct (key a <=? key b).
    + by inv 1.
  - destruct (select_min key heads) as [[j b]|]; simpl.
    + split; [done|]. intros H. inv H.
      match goal with H : Forall _ heads |- _ => by apply IH in H end.
    + split; [|done]. intros _. constructor; [done|]. by apply IH.
Qed.

Lemma select_min_lookup (heads : list (option A)) j a :
  select_min key heads = Some (j, a) → heads !! j = Some (Some a).
Proof.
  revert j. induction heads as [|[b|] heads IH]; intros j; simpl; [done|..].
  - destruct (select_min key heads) as [[j' c]|].
    + destruct (key b <=? key c); intros [= <- <-]; [done|]. by apply IH.
    + by intros [= <- <-].
  - destruct (select_min key heads) as [[j' c]|]; simpl; [|done].
    intros [= <- <-]. by apply IH.
Qed.


Lemma heads_None_concat (lists : list (list A)) :
  Forall (λ h, h = None) (head <$> lists) → concat lists = [].
Proof.
  induction lists as [|[|a l] lists IH]; simpl; [done|..].
  - inv 1. auto.
  - by inv 1.
Qed.

Lemma concat_nil_heads (lists : list (list A)) :
  concat lists = [] → Forall (λ h, h = None) (head <$> lists).
Proof.
  induction lists as [|[|a l] lists IH]; simpl; [constructor| |done].
  intros H. constructor; auto.
Qed.

Lemma concat_alter_tail (lists : list (list A)) j a :
  (head <$> lists) !! j = Some (Some a) →
  concat lists ≡ₚ a :: concat (alter tail j lists).
Proof.
  revert j. induction lists as [|l lists IH]; intros [|j]; simpl; try done.
  - destruct l as [|b l]; simpl; [done|]. by intros [= ->].
  - intros Hj. rewrite (IH j Hj). by rewrite Permutation_middle.
Qed.

Lemma heapq_merge_steps_perm n (lists : list (list A)) :
  length (concat lists) = n → heapq_merge_steps key n lists ≡ₚ concat lists.
Proof.
  revert lists. induction n as [|n IH]; intros lists Hn; simpl.
  - by destruct (concat lists).
  - destruct (select_min key (head <$> lists)) as [[j a]|] eqn:Hs.
    + apply select_min_lookup, concat_alter_tail in Hs.
      rewrite Hs. constructor. apply IH.
      apply Permutation_length in Hs. simpl in Hs. lia.
    + apply select_min_None, heads_None_concat in Hs.
      by rewrite Hs in Hn.
Qed.

Lemma heapq_merge_perm (lists : list (list A)) :
  heapq_merge key lists ≡ₚ concat lists.
Proof. by apply heapq_merge_steps_perm. Qed.



End MergeFacts.

Section AmergeFacts.
Context {A S : Type}.
Variable pull : S → step A S.
Variable key : A → Z.

(** One internal step of [amerge]: a source was pulled without raising. *)
#[local] Abbreviation refills :=
  (rtc (λ x y : list (slot A S), amerge_refill pull x = Some (None, y))).

Lemma amerge_refill_filled (slots : list (slot A S)) :
  Forall slot_filled slots → amerge_refill pull slots = None.
Proof.
  induction 1 as [|[s|a s|s] slots Hf _ IH]; simpl; [done|done|..];
    by rewrite IH.
Qed.

Lemma refills_cons (sl : slot A S) slots slots' :
  slot_filled sl → refills slots slots' → refills (sl :: slots) (sl :: slots').
Proof.
  intros Hf. induction 1 as [|x y z Hxy _ IH]; [done|].
  eapply rtc_l; [|exact IH].
  destruct sl; [done|..]; simpl; by rewrite Hxy.
Qed.

Lemma refills_need s l s' rest :
  drains pull s l s' →
  ∃ sl, refills (Need s :: rest) (sl :: rest) ∧
        slot_filled sl ∧ slot_yields pull sl l.
Proof.
  induction 1 as [s s' Hp|s s1 l s2 Hp _ (sl & Hr & Hf & Hy)|s a s1 l s2 Hp Hd _].
  - exists (Dead s'). split; [|done]. apply rtc_once. simpl. by rewrite Hp.
  - exists sl. split; [|done]. eapply rtc_l; [|exact Hr]. simpl. by rewrite Hp.
  - exists (Pending a s1). split; [|split; [done|]].
    + apply rtc_once. simpl. by rewrite Hp.
    + simpl. eauto.
Qed.

(** Pulling the sources whose slot is empty fills every slot and leaves
    what the sources have to give as it was. *)
Lemma refills_all (slots : list (slot A S)) (lists : list (list A)) :
  Forall2 (slot_yields pull) slots lists →
  ∃ slots', refills slots slots' ∧ Forall slot_filled slots' ∧
            Forall2 (slot_yields pull) slots' lists.
Proof.
  induction 1 as [|sl l slots lists Hy _ (slots' & Hr & Hf & Hys)].
  - exists []. by repeat split.
  - assert (∃ sl', refills (sl :: slots) (sl' :: slots) ∧
                   slot_filled sl' ∧ slot_yields pull sl' l)
      as (sl' & Hr1 & Hf1 & Hy1).
    { destruct sl as [s|a s|s].
      - destruct Hy as [s' Hd]. by eapply refills_need.
      - exists (Pending a s). by repeat split.
      - exists (Dead s). by repeat split. }
    exists (sl' :: slots'). split; [|split].
    + etrans; [exact Hr1|]. by apply refills_cons.
    + by constructor.
    + by constructor.
Qed.

Lemma refills_drains slots slots' out st :
  refills slots slots' →
  drains (amerge_pull pull key) slots' out st →
  drains (amerge_pull pull key) slots out st.
Proof.
  induction 1 as [|x y z Hxy _ IH]; [done|]. intros Hd.
  eapply drains_tau; [|by apply IH].
  unfold amerge_pull. by rewrite Hxy.
Qed.

Lemma filled_pending_heads (slots : list (slot A S)) lists :
  Forall slot_filled slots →
  Forall2 (slot_yields pull) slots lists →
  slot_pending <$> slots = head <$> lists.
Proof.
  intros Hf Hy. induction Hy as [|sl l slots lists Hy _ IH]; [done|].
  inv Hf. simpl. f_equal; [|by apply IH].
  destruct sl as [s|a s|s]; [done|..]; simpl in *.
  - by destruct Hy as (l' & s' & -> & _).
  - by subst.
Qed.

(** [amerge] over sources that yield [lists] yields what [heapq.merge]
    makes of [lists]. *)
Lemma amerge_drains n (slots : list (slot A S)) (lists : list (list A)) :
  length (concat lists) = n →
  Forall2 (slot_yields pull) slots lists →
  ∃ st, drains (amerge_pull pull key) slots (heapq_merge_steps key n lists) st.
Proof.
  revert slots lists. induction n as [|n IH]; intros slots lists Hn Hy.
  - destruct (refills_all slots lists Hy) as (slots' & Hr & Hf & Hy').
    exists slots'. eapply refills_drains; [exact Hr|].
    apply drains_stop. unfold amerge_pull.
    rewrite amerge_refill_filled by done.
    rewrite (filled_pending_heads slots' lists) by done.
    assert (select_min key (head <$> lists) = None) as ->; [|done].
    apply select_min_None, concat_nil_heads. by destruct (concat lists).
  - destruct (refills_all slots lists Hy) as (slots' & Hr & Hf & Hy').
    simpl. destruct (select_min key (head <$> lists)) as [[j a]|] eqn:Hs.
    + pose proof (select_min_lookup _ _ _ _ Hs) as Hj.
      destruct (IH (alter slot_release j slots') (alter tail j lists)) as [st Hst].
      { apply concat_alter_tail, Permutation_length in Hj. simpl in Hj. lia. }
      { apply Forall2_alter; [done|]. intros sl l Hsl Hl Hsly.
        rewrite list_lookup_fmap, Hl in Hj. simpl in Hj.
        rewrite Forall_lookup in Hf. specialize (Hf j sl Hsl).
        destruct sl as [s|b s|s]; [done|..]; simpl in *.
        - destruct Hsly as (l' & s' & -> & Hd). simpl. eauto.
        - by subst. }
      exists st. eapply refills_drains; [exact Hr|].
      eapply drains_yield; [|exact Hst]. unfold amerge_pull.
      rewrite amerge_refill_filled by done.
      by rewrite (filled_pending_heads slots' lists), Hs by done.
    + apply select_min_None, heads_None_concat in Hs. by rewrite Hs in Hn.
Qed.
End AmergeFacts.

Section GatherFacts.
Context {T St : Type}.
Variable earliest : list (nat * PyExc) → nat.

Lemma gather_failures_ok i (rs : list (option (result (list T) * St))) lists :
  Forall2 (λ r l, ∃ st, r = Some (Ok l, st)) rs lists →
  gather_failures i rs = [] ∧ gather_lists rs = Some lists.
Proof.
  intros H. revert i.
  induction H as [|r l rs lists [st ->] _ IH]; intros i; [done|]. simpl.
  destruct (IH (Datatypes.S i)) as [-> ->]. done.
Qed.

Lemma gather_ok (rs : list (option (result (list T) * St))) lists :
  Forall2 (λ r l, ∃ st, r = Some (Ok l, st)) rs lists →
  gather earliest rs = Some (Ok lists).
Proof.
  intros H. unfold gather, gather_raised.
  destruct (gather_failures_ok O rs lists H) as [-> ->]. done.
Qed.

(** The children [gather_failures] lists have raised what it says. *)
Lemma gather_failures_elem i (rs : list (option (result (list T) * St))) k e :
  (k, e) ∈ gather_failures i rs →
  ∃ j st, k = (i + j)%nat ∧ rs !! j = Some (Some (Raise e, st)).
Proof.
  revert i. induction rs as [|r rs IH]; intros i; simpl.
  { intros H. by apply not_elem_of_nil in H. }
  assert (Hrest : (k, e) ∈ gather_failures (Datatypes.S i) rs →
                  ∃ j st, k = (i + j)%nat ∧ (r :: rs) !! j = Some (Some (Raise e, st))).
  { intros H. destruct (IH _ H) as (j & st & -> & Hj).
    exists (Datatypes.S j), st. split; [lia|done]. }
  destruct r as [[[l|e0] st0]|]; [done| |done].
  intros H. apply elem_of_cons in H as [[= -> ->]|H]; [|by apply Hrest].
  exists O, st0. split; [lia|done].
Qed.

(** It lists every child that has raised. *)
Lemma gather_failures_complete i (rs : list (option (result (list T) * St))) j e st :
  rs !! j = Some (Some (Raise e, st)) → ((i + j)%nat, e) ∈ gather_failures i rs.
Proof.
  revert i j. induction rs as [|r rs IH]; intros i j; [done|].
  destruct j as [|j]; simpl.
  - intros [= ->]. rewrite Nat.add_0_r. by left.
  - intros Hj. specialize (IH (Datatypes.S i) j Hj).
    replace (i + Datatypes.S j)%nat with (Datatypes.S i + j)%nat by lia.
    destruct r as [[[l|e0] st0]|]; [done| |done]. by right.
Qed.

(** When a child has raised, [gather] raises, and what it raises is what
    one of the children has raised. *)
Lemma gather_raised_some (rs : list (option (result (list T) * St))) j e st :
  rs !! j = Some (Some (Raise e, st)) →
  ∃ k e' st', gather_raised earliest rs = Some e' ∧
              rs !! k = Some (Some (Raise e', st')).
Proof.
  intros Hj. pose proof (gather_failures_complete O rs j e st Hj) as Hin.
  unfold gather_raised.
  destruct (gather_failures O rs) as [|f fs] eqn:Hfs;
    [by apply not_elem_of_nil in Hin|].
  set (chosen := default f ((f :: fs) !! earliest (f :: fs))).
  assert (chosen ∈ gather_failures O rs) as Hchosen.
  { rewrite Hfs. unfold chosen.
    destruct ((f :: fs) !! earliest (f :: fs)) as [g|] eqn:Hg; simpl.
    - by eapply list_elem_of_lookup_2.
    - by left. }
  destruct chosen as [k e'].
  apply gather_failures_elem in Hchosen as (k' & st' & -> & Hk).
  exists k', e', st'. done.
Qed.
End GatherFacts.

Section MergedClaims.
Context {T X XM W C : Type}.
Variable id : T → Z.
Variable function : X → Z → W → result (list T) * W.
Variable key : T → Z.
Variable prefetch : IDPagintor XM → C.
Variable earliest : list (nat * PyExc) → nat.

#[local] Abbreviation child_flatten fuel :=
  (λ c : IDPagintor X * Env W, flatten id function fuel c.1 c.2).

Lemma eager_children (children : list (IDPagintor X * Env W)) fuel lists :
  Forall2 (λ c l, ∃ st, child_flatten fuel c = Some (Ok l, st)) children lists →
  Forall2 (λ r l, ∃ st, r = Some (Ok l, st))
    (child_flatten fuel <$> children) lists ∧
  Forall2 (λ c c', ∃ l st, child_flatten fuel c = Some (Ok l, st) ∧
                           c' = child_of_state st)
    children
    (zip_with (λ c r, match r with
                      | Some (_, st) => child_of_state st
                      | None => c
                      end) children (child_flatten fuel <$> children)).
Proof.
  induction 1 as [|c l children lists [st Hc] _ [IH1 IH2]]; [done|].
  split; simpl.
  - constructor; eauto.
  - constructor; [|done]. rewrite Hc. eauto.
Qed.

(** C5: in eager mode, when [flatten] of one child raises, [flatten] of
    the merged paginator raises too and returns no list, whichever child
    the event loop finds to have raised first; the exception is the one a
    child's [flatten] raised, as [function] raised it; it is the exception
    of that child when no other child ever raises, and in any case for
    some decision of the event loop. *)
Theorem flatten_eager_fails_fast (m : Merged XM X W) fuel (tasks : list C)
    j c e st :
  _paginators m !! j = Some c →
  child_flatten fuel c = Some (Raise e, st) →
  ∃ e' m',
    (merged_flatten id function key prefetch earliest false fuel m tasks).1
      = Some (Raise e', m') ∧
    (∃ i c' st', _paginators m !! i = Some c' ∧
                 child_flatten fuel c' = Some (Raise e', st')) ∧
    (∃ x cur w, (function x cur w).1 = Raise e') ∧
    ((∀ i c0 n e0 st0, i ≠ j → _paginators m !! i = Some c0 →
                       child_flatten n c0 ≠ Some (Raise e0, st0)) →
     e' = e) ∧
    (∃ decision m'',
       (merged_flatten id function key prefetch decision false fuel m tasks).1
         = Some (Raise e, m'')).
Proof.
  intros Hj Hc.
  assert ((child_flatten fuel <$> _paginators m) !! j = Some (Some (Raise e, st)))
    as Hrj by (by rewrite list_lookup_fmap, Hj; simpl; rewrite Hc).
  destruct (gather_raised_some earliest _ _ _ _ Hrj) as (i & e' & st' & Hg & Hi).
  rewrite list_lookup_fmap in Hi.
  destruct (_paginators m !! i) as [c'|] eqn:Hci; [|done].
  simpl in Hi. injection Hi as Hi.
  exists e'. eexists. split; [|split; [|split; [|split]]].
  - unfold merged_flatten. rewrite andb_false_r. simpl.
    unfold flatten_eager, gather. by rewrite Hg.
  - exists i, c', st'. done.
  - by eapply flatten_raise.
  - intros Hnone. destruct (decide (i = j)) as [->|Hne].
    + rewrite Hj in Hci. injection Hci as <-. rewrite Hc in Hi. by injection Hi.
    + exfalso. by eapply (Hnone i c' fuel e' st').
  - pose proof (gather_failures_complete O _ _ _ _ Hrj) as Hin.
    apply list_elem_of_lookup_1 in Hin as [k Hk].
    exists (λ _, k). eexists.
    unfold merged_flatten. rewrite andb_false_r. simpl.
    unfold flatten_eager, gather, gather_raised.
    destruct (gather_failures O _) as [|f fs]; [done|].
    by rewrite Hk.
Qed.
End MergedClaims.

Section LazyEager.
Context {T X XM W C : Type}.
Variable id : T → Z.
Variable function : X → Z → W → result (list T) * W.
Variable key : T → Z.
Variable prefetch : IDPagintor XM → C.
Variable earliest : list (nat * PyExc) → nat.

#[local] Abbreviation child_run fuel :=
  (λ c : IDPagintor X * Env W, flatten id function fuel c.1 c.2).

Lemma children_enough_fuel (children : list (IDPagintor X * Env W)) lists :
  Forall2 (λ c l, ∃ n st, child_run n c = Some (Ok l, st)) children lists →
  ∃ N, ∀ fuel, (N ≤ fuel)%nat →
    Forall2 (λ c l, ∃ st, child_run fuel c = Some (Ok l, st)) children lists.
Proof.
  induction 1 as [|c l children lists (n & st & Hc) _ [N IH]].
  - exists O. by constructor.
  - exists (n `max` N)%nat. intros fuel Hfuel. constructor.
    + exists st. eapply collect_mono; [exact Hc|lia].
    + apply IH. lia.
Qed.

Lemma children_slots (children : list (IDPagintor X * Env W)) lists :
  Forall2 (λ c l, ∃ n st, child_run n c = Some (Ok l, st)) children lists →
  Forall2 (slot_yields (__aiter___pull id function))
    (amerge ((λ c, __aiter__ c.1 c.2) <$> children)) lists.
Proof.
  induction 1 as [|c l children lists (n & st & Hc) _ IH]; [constructor|].
  unfold amerge. rewrite !fmap_cons. constructor; [|exact IH].
  simpl. exists st. by eapply collect_drains.
Qed.

(** C4: when [flatten] of every child returns a list and no limit is set,
    or the limit is at least the number of items of all the lists, lazy
    and eager [flatten] return the same list, the merge of the lists of
    the children. *)
Theorem flatten_lazy_eager_agree (m : Merged XM X W) lists :
  Forall2 (λ c l, ∃ n st, child_run n c = Some (Ok l, st))
    (_paginators m) lists →
  limit (merged_self m) = None ∨
  (∃ L, limit (merged_self m) = Some L ∧ Z.of_nat (length (concat lists)) ≤ L) →
  ∃ N, ∀ fuel (tasks : list C), (N ≤ fuel)%nat →
    ∃ m1 m2,
      (merged_flatten id function key prefetch earliest true fuel m tasks).1
        = Some (Ok (heapq_merge key lists), m1) ∧
      (merged_flatten id function key prefetch earliest false fuel m tasks).1
        = Some (Ok (heapq_merge key lists), m2).
Proof.
  intros Hc Hlim.
  destruct (children_enough_fuel _ _ Hc) as [N1 Heager].
  assert (Hcut : slice_to (heapq_merge key lists) (limit (merged_self m))
                 = heapq_merge key lists).
  { destruct Hlim as [->|(L & -> & HL)]; [done|]. unfold slice_to.
    assert (0 <= L) as H0 by lia. rewrite (proj2 (Z.leb_le 0 L) H0).
    apply take_ge. rewrite (Permutation_length (heapq_merge_perm key lists)). lia. }
  assert (Heag : ∀ fuel, (N1 ≤ fuel)%nat →
    ∃ m2, flatten_eager id function key earliest fuel m
          = Some (Ok (heapq_merge key lists), m2)).
  { intros fuel Hfuel. specialize (Heager fuel Hfuel).
    destruct (eager_children id function _ _ _ Heager) as [Hrs _].
    eexists. unfold flatten_eager. rewrite (gather_ok earliest _ _ Hrs). by rewrite Hcut. }
  destruct (amerge_drains (__aiter___pull id function) key
              (length (concat lists)) _ lists eq_refl (children_slots _ _ Hc))
    as [st Hmerge].
  destruct (aislice_drains _ (limit (merged_self m)) _ _ _ Hmerge) with
    (last := @None Z) (i := 1) as [st' Hsliced]; [|by left|].
  { destruct Hlim as [->|(L & -> & HL)]; [done|]. simpl.
    intros HL0. apply negb_true_iff, Z.eqb_neq in HL0. lia. }
  rewrite aislice_cut_all in Hsliced.
  2:{ destruct Hlim as [->|(L & -> & HL)]; [by left|right].
      exists L. split; [done|].
      fold (heapq_merge key lists).
      rewrite (Permutation_length (heapq_merge_perm key lists)). lia. }
  apply drains_collect in Hsliced as [N2 Hlazy].
  exists (N1 `max` N2)%nat. intros fuel tasks Hfuel.
  destruct (Heag fuel) as [m2 Hm2]; [lia|].
  unfold merged_flatten.
  destruct Hlim as [Hnone|(L & HL & _)].
  - rewrite Hnone. rewrite bool_decide_eq_false_2 by (by intros []). simpl. eauto.
  - rewrite HL. rewrite bool_decide_eq_true_2 by done. simpl.
    eexists _, m2. split; [|exact Hm2].
    unfold flatten_lazy, merged_iter_pull, merged_iter, aislice, aenumerate.
    by rewrite (Hlazy fuel) by lia.
Qed.
End LazyEager.

Lemma rmap_list_Forall2 {A B} (f : A → result B) (l : list A) (bs : list B) :
  rmap_list f l = Ok bs → Forall2 (λ a b, f a = Ok b) l bs.
Proof.
  revert bs. induction l as [|a l IH]; intros bs; simpl.
  - intros [= <-]. constructor.
  - destruct (f a) as [b|e] eqn:Hf; [|done]. simpl.
    destruct (rmap_list f l) as [bs'|e]; [|done]. simpl.
    intros [= <-]. constructor; auto.
Qed.

Section TransactionsClaims.
Context {CW : Type}.
Variable client : GenshinClient CW.
Variable int_validator : pyval → option Z.
Variable str_validator : pyval → option string.
Variable datetime_validator : pyval → option Z.

#[local] Abbreviation make_transaction' :=
  (make_transaction int_validator str_validator datetime_validator).

Lemma validate_transaction_fields permitted (kw : gmap string pyval) t :
  validate_transaction int_validator str_validator datetime_validator
    permitted kw = Some t →
  (∃ v, kw !! "kind" = Some v ∧
        literal_validator permitted v = Some (Transaction.kind t)) ∧
  field_default str_validator kw "reason_str" "" = Some (Transaction.reason t).
Proof.
  unfold validate_transaction, field. intros H.
  destruct (kw !! "kind") as [v|]; [|done]. simpl in H.
  destruct (literal_validator permitted v) as [k|] eqn:Hlit; [|done].
  simpl in H.
  repeat match type of H with
         | context [?o ≫= _] =>
             let x := fresh in destruct o as [x|] eqn:?; simpl in H; [|done]
         end.
  injection H as <-. simpl. eauto.
Qed.

Lemma make_transaction_item (self : TransactionsExt) reasons trans x :
  (∀ s, str_validator (VStr s) = Some s) →
  make_transaction' self reasons trans = Ok x →
  (is_item x = true ↔ is_Some (trans !! "name")) ∧
  Transaction.kind (as_transaction x) = tr_kind self ∧
  ∃ r, trans !! "reason" = Some r ∧
       Transaction.reason (as_transaction x) = default "" (reasons !! r).
Proof.
  intros Hstr. unfold make_transaction.
  destruct (trans !! "reason") as [r|] eqn:Hr; [|done].
  unfold kwargs_add.
  destruct (trans !! "reason_str") eqn:Hrs; [done|]. simpl.
  rewrite lookup_insert_ne by done.
  destruct (trans !! "kind") eqn:Hk; [done|]. simpl.
  set (kw := <["kind":=_]> _).
  assert (Hfields : ∀ permitted t,
    validate_transaction int_validator str_validator datetime_validator
      permitted kw = Some t →
    Transaction.kind t = tr_kind self ∧
    Transaction.reason t = default "" (reasons !! r)).
  { intros permitted t Ht.
    apply validate_transaction_fields in Ht as [(v & Hv & Hlit) Hreason].
    unfold kw in Hv, Hreason. rewrite lookup_insert_eq in Hv.
    injection Hv as <-. simpl in Hlit.
    destruct (bool_decide _); [|done]. injection Hlit as Hlit.
    unfold field_default in Hreason.
    rewrite lookup_insert_ne, lookup_insert_eq, Hstr in Hreason by done.
    by injection Hreason as Hreason. }
  destruct (bool_decide (is_Some (trans !! "name"))) eqn:Hname.
  - apply bool_decide_eq_true in Hname.
    unfold ItemTransaction_init.
    destruct (validate_transaction _ _ _ _ kw) as [t|] eqn:Ht; [|done]. simpl.
    destruct (field _ kw "name") as [n|]; [|done]. simpl.
    destruct (field _ kw "rank") as [rk|]; [|done]. simpl.
    intros [= <-]. simpl. destruct (Hfields _ _ Ht) as [-> ->].
    split; [done|]. eauto.
  - apply bool_decide_eq_false in Hname.
    unfold Transaction_init.
    destruct (validate_transaction _ _ _ _ kw) as [t|] eqn:Ht; [|done]. simpl.
    intros [= <-]. simpl. destruct (Hfields _ _ Ht) as [-> ->].
    split; [split; [done|by intros ?]|]. eauto.
Qed.

#[local] Abbreviation Tfun :=
  (Transactions_function client int_validator str_validator datetime_validator).
#[local] Abbreviation page_req self cursor :=
  (request_transaction client ("get" +:+ capitalize (tr_kind self) +:+ "Log")
     (tr_lang self) (tr_authkey self) cursor 20).
#[local] Abbreviation reasons_req self :=
  (_get_transaction_reasons client (str_or (tr_lang self) (client_lang client))).
#[local] Abbreviation created self cursor :=
  [Call__get_transaction_reasons (str_or (tr_lang self) (client_lang client));
   Call_request_transaction ("get" +:+ capitalize (tr_kind self) +:+ "Log")
     (tr_lang self) (tr_authkey self) cursor 20].

(** [Transactions.function] in terms of the request for the page, of the
    task for the table of reasons, which runs when it is awaited, and of
    the loop. *)
Lemma Transactions_function_unfold (self : TransactionsExt) cursor
    (w : ClientWorld CW) :
  Tfun self cursor w
  = let '(rd, s1) := page_req self cursor (cw w) in
    let log := calls w ++ created self cursor in
    match rd with
    | Raise e => (Raise e, mkWorld s1 log)
    | Ok data =>
        let '(rr, s2) := reasons_req self s1 in
        match rr with
        | Raise e => (Raise e, mkWorld s2 log)
        | Ok reasons =>
            match data !! "list" with
            | None => (Raise (mkExc "KeyError" "list"), mkWorld s2 log)
            | Some raws =>
                (rmap_list (make_transaction' self reasons) raws, mkWorld s2 log)
            end
        end
    end.
Proof.
  unfold Transactions_function, bind, create_task, await_task, call, lift,
    getitem_list. simpl.
  destruct (request_transaction client _ _ _ _ _ (cw w)) as [[data|e] s1]; simpl;
    rewrite <- app_assoc; simpl; [|done].
  destruct (_get_transaction_reasons client _ s1) as [[reasons|e] s2]; simpl;
    [|done].
  by destruct (data !! "list").
Qed.

Lemma rmap_list_ok {A B} (f : A → result B) (l : list A) (bs : list B) :
  Forall2 (λ a b, f a = Ok b) l bs → rmap_list f l = Ok bs.
Proof.
  induction 1 as [|a b l bs Hf _ IH]; [done|]. simpl. by rewrite Hf, IH.
Qed.

(** The loop builds the item of a raw record whose entries the validators
    take and whose kind the model allows. *)
Lemma make_transaction_builds (self : TransactionsExt) reasons trans
    r id uid time amount reason_id :
  (∀ s, str_validator (VStr s) = Some s) →
  trans !! "reason" = Some r → trans !! "kind" = None →
  trans !! "reason_str" = None →
  trans !! "id" ≫= int_validator = Some id →
  trans !! "uid" ≫= int_validator = Some uid →
  trans !! "time" ≫= datetime_validator = Some time →
  trans !! "add_num" ≫= int_validator = Some amount →
  int_validator r = Some reason_id →
  let t := Transaction.mk (tr_kind self) id uid time amount reason_id
             (default "" (reasons !! r)) in
  (trans !! "name" = None →
   tr_kind self ∈ ["primogem"; "crystal"; "resin"] →
   make_transaction' self reasons trans = Ok (IsTransaction t)) ∧
  (∀ name rarity,
     trans !! "name" ≫= str_validator = Some name →
     trans !! "rank" ≫= int_validator = Some rarity →
     tr_kind self ∈ ["artifact"; "weapon"] →
     make_transaction' self reasons trans
     = Ok (IsItemTransaction (ItemTransaction.mk t name rarity))).
Proof.
  intros Hstr Hr Hk Hrs Hid Huid Htime Hamt Hrid t.
  destruct (trans !! "id") as [vid|] eqn:Eid; [simpl in Hid|done].
  destruct (trans !! "uid") as [vuid|] eqn:Euid; [simpl in Huid|done].
  destruct (trans !! "time") as [vtime|] eqn:Etime; [simpl in Htime|done].
  destruct (trans !! "add_num") as [vamt|] eqn:Eamt; [simpl in Hamt|done].
  assert (Hvalid : ∀ permitted, tr_kind self ∈ permitted →
    validate_transaction int_validator str_validator datetime_validator permitted
      (<["kind" := VStr (tr_kind self)]>
         (<["reason_str" := VStr (default "" (reasons !! r))]> trans)) = Some t).
  { intros permitted Hin. unfold validate_transaction, field, field_default.
    rewrite lookup_insert_eq. simpl. rewrite bool_decide_eq_true_2 by done. simpl.
    rewrite !(lookup_insert_ne _ "kind") by done.
    rewrite lookup_insert_eq, Hstr.
    rewrite !(lookup_insert_ne _ "reason_str") by done.
    rewrite Eid, Euid, Etime, Eamt, Hr. simpl.
    rewrite Hid. simpl. rewrite Huid. simpl. rewrite Htime. simpl.
    rewrite Hamt. simpl. rewrite Hrid. done. }
  unfold make_transaction, kwargs_add. rewrite Hr, Hrs. simpl.
  rewrite lookup_insert_ne, Hk by done. simpl. split.
  - intros Hname Hin. rewrite Hname.
    rewrite bool_decide_eq_false_2 by (by intros [? ?]).
    unfold Transaction_init. by rewrite (Hvalid _ Hin).
  - intros name rarity Hname Hrank Hin.
    destruct (trans !! "name") as [v|] eqn:Hv; [simpl in Hname|done].
    destruct (trans !! "rank") as [vr|] eqn:Hvr; [simpl in Hrank|done].
    rewrite bool_decide_eq_true_2 by eauto.
    unfold ItemTransaction_init, field. rewrite (Hvalid _ Hin). simpl.
    rewrite !(lookup_insert_ne _ "kind"), !(lookup_insert_ne _ "reason_str") by done.
    rewrite Hv, Hvr. simpl. rewrite Hname. simpl. by rewrite Hrank.
Qed.

(** C10: [Transactions.function] requests the page with the cursor and the
    size 20 and runs the task for the table of reasons; for the raw records
    of the page, in their order, it makes an [ItemTransaction] exactly of
    those that have a ["name"] entry and a plain [Transaction] of the
    others; the [kind] of each is the kind of the paginator; the reason
    string is the entry of the table of reasons under the record's reason,
    and empty when the table has none.  The items are built, with the
    fields of the record, whenever the validators take the entries and the
    model allows the kind, and the page is returned when every record
    gives its item.  The string validator is taken to return a string as it
    is. *)
Theorem Transactions_function_items (self : TransactionsExt) end_id
    (w : ClientWorld CW) :
  (∀ s, str_validator (VStr s) = Some s) →
  (∀ items w',
     Tfun self end_id w = (Ok items, w') →
     ∃ data s1 reasons s2 raws,
       page_req self end_id (cw w) = (Ok data, s1) ∧
       reasons_req self s1 = (Ok reasons, s2) ∧
       data !! "list" = Some raws ∧
       Forall2 (λ trans x,
                  (is_item x = true ↔ is_Some (trans !! "name")) ∧
                  Transaction.kind (as_transaction x) = tr_kind self ∧
                  ∃ r, trans !! "reason" = Some r ∧
                       Transaction.reason (as_transaction x)
                         = default "" (reasons !! r) ∧
                       (reasons !! r = None →
                        Transaction.reason (as_transaction x) = ""))
               raws items) ∧
  (∀ reasons trans r id uid time amount reason_id,
     trans !! "reason" = Some r → trans !! "kind" = None →
     trans !! "reason_str" = None →
     trans !! "id" ≫= int_validator = Some id →
     trans !! "uid" ≫= int_validator = Some uid →
     trans !! "time" ≫= datetime_validator = Some time →
     trans !! "add_num" ≫= int_validator = Some amount →
     int_validator r = Some reason_id →
     let t := Transaction.mk (tr_kind self) id uid time amount reason_id
                (default "" (reasons !! r)) in
     (trans !! "name" = None →
      tr_kind self ∈ ["primogem"; "crystal"; "resin"] →
      make_transaction' self reasons trans = Ok (IsTransaction t)) ∧
     (∀ name rarity,
        trans !! "name" ≫= str_validator = Some name →
        trans !! "rank" ≫= int_validator = Some rarity →
        tr_kind self ∈ ["artifact"; "weapon"] →
        make_transaction' self reasons trans
        = Ok (IsItemTransaction (ItemTransaction.mk t name rarity)))) ∧
  (∀ data s1 reasons s2 raws items,
     page_req self end_id (cw w) = (Ok data, s1) →
     reasons_req self s1 = (Ok reasons, s2) →
     data !! "list" = Some raws →
     Forall2 (λ trans x, make_transaction' self reasons trans = Ok x) raws items →
     Tfun self end_id w = (Ok items, mkWorld s2 (calls w ++ created self end_id))).
Proof.
  intros Hstr. split; [|split].
  - intros items w'. rewrite Transactions_function_unfold.
    destruct (page_req self end_id (cw w)) as [[data|e] s1] eqn:Hdata; [|done].
    destruct (reasons_req self s1) as [[reasons|e] s2] eqn:Hreasons; [|done].
    destruct (data !! "list") as [raws|] eqn:Hlist; [|done].
    intros [= Hmap _]. exists data, s1, reasons, s2, raws.
    split; [done|]. split; [done|]. split; [done|].
    apply rmap_list_Forall2 in Hmap.
    eapply Forall2_impl; [exact Hmap|]. intros trans x Hx. simpl in Hx.
    destruct (make_transaction_item _ _ _ _ Hstr Hx) as (Hi & Hk & r & Hr & Hreason).
    split; [exact Hi|]. split; [exact Hk|].
    exists r. split; [done|]. split; [done|].
    intros Hnone. by rewrite Hreason, Hnone.
  - intros reasons trans r id uid time amount reason_id.
    by apply make_transaction_builds.
  - intros data s1 reasons s2 raws items Hdata Hreasons Hlist Hall.
    rewrite Transactions_function_unfold, Hdata, Hreasons, Hlist.
    by rewrite (rmap_list_ok _ _ _ Hall).
Qed.
End TransactionsClaims.

Section PrefetchClaims.
Context {CW : Type}.
Variable client : GenshinClient CW.

(** The sibling: what [MergedWishHistory.flatten] schedules is the request
    [WishHistory.function] makes for the banner name, with the same
    arguments for the children [__init__] builds. *)
Lemma MergedWishHistory_prefetch_consumed {Wish : Type}
    (Wish_init : gmap string pyval → result Wish) (Wish_id Wish_timestamp : Wish → Z)
    lang authkey limit end_id (w0 : ClientWorld CW) earliest lazy fuel tasks :
  let m := MergedWishHistory_init lang authkey limit end_id w0 in
  (MergedWishHistory_flatten client Wish_init Wish_id Wish_timestamp
     earliest lazy fuel m tasks).2 = tasks ++ [Call_get_banner_types lang authkey] ∧
  ∀ c cursor w data s,
    c ∈ _paginators m →
    request_gacha_info client "getGachaLog" (wh_lang (ext c.1))
      (wh_authkey (ext c.1)) (wh_banner_type (ext c.1)) page_size cursor (cw w)
      = (Ok data, s) →
    Call_get_banner_types lang authkey
      ∈ calls (WishHistory_function client Wish_init (ext c.1) cursor w).2.
Proof.
  intros m. split.
  - unfold MergedWishHistory_flatten, merged_flatten.
    by destruct (_ && _).
  - intros c cursor w data s Hc Hreq.
    assert (wh_lang (ext c.1) = lang ∧ wh_authkey (ext c.1) = authkey) as [Hl Ha].
    { unfold m, MergedWishHistory_init in Hc. simpl in Hc.
      repeat (apply elem_of_cons in Hc as [->|Hc]; [done|]).
      by apply not_elem_of_nil in Hc. }
    unfold WishHistory_function, _get_banner_name, bind, call, lift, ret.
    rewrite Hreq. simpl. rewrite Hl, Ha.
    assert (Hin : ∀ l : list ClientCall,
              Call_get_banner_types lang authkey
                ∈ l ++ [Call_get_banner_types lang authkey]).
    { intros l. apply elem_of_app. right. by apply list_elem_of_singleton. }
    destruct (get_banner_types client lang authkey s) as [[names|e] s'] eqn:Hb;
      simpl; [|apply Hin].
    destruct (names !! _); simpl; [|apply Hin].
    destruct (getitem_list data) as [l|e]; simpl; [|apply Hin].
    apply Hin.
Qed.

Variable int_validator : pyval → option Z.
Variable str_validator : pyval → option string.
Variable datetime_validator : pyval → option Z.

(** C8, as the code has it for merged transactions: [flatten] schedules
    [get_banner_types], whereas [Transactions.function] makes two requests,
    for the table of reasons and for the page, and neither is the request
    that was scheduled. *)
Theorem MergedTransactions_prefetch_unused
    (m : Merged MergedExt TransactionsExt (ClientWorld CW)) earliest lazy fuel
    tasks (self : TransactionsExt) cursor (w : ClientWorld CW) :
  let scheduled :=
    Call_get_banner_types (mg_lang (ext (merged_self m)))
      (mg_authkey (ext (merged_self m))) in
  let requested :=
    [Call__get_transaction_reasons (str_or (tr_lang self) (client_lang client));
     Call_request_transaction ("get" +:+ capitalize (tr_kind self) +:+ "Log")
       (tr_lang self) (tr_authkey self) cursor 20] in
  (MergedTransactions_flatten client int_validator str_validator
     datetime_validator earliest lazy fuel m tasks).2 = tasks ++ [scheduled] ∧
  calls (Transactions_function client int_validator str_validator
           datetime_validator self cursor w).2 = calls w ++ requested ∧
  scheduled ∉ requested.
Proof.
  intros scheduled requested. split; [|split].
  - unfold MergedTransactions_flatten, merged_flatten.
    by destruct (_ && _).
  - rewrite Transactions_function_unfold.
    destruct (request_transaction client _ _ _ _ _ (cw w)) as [[data|e] s1];
      [|done].
    destruct (_get_transaction_reasons client _ s1) as [[reasons|e] s2]; [|done].
    by destruct (data !! "list").
  - unfold scheduled, requested.
    apply not_elem_of_cons. split; [done|].
    apply not_elem_of_cons. split; [done|]. apply not_elem_of_nil.
Qed.
End PrefetchClaims.

(** ** Limits *)

Section LimitFacts.
Context {T X W : Type}.
Variable id : T → Z.
Variable function : X → Z → W → result (list T) * W.

Lemma aislice_cut_falsy {A} (stop : option Z) (l : list A) :
  truthy stop = false → aislice_cut stop 1 l = l.
Proof. unfold aislice_cut. by intros ->. Qed.

Lemma aislice_cut_take {A} (L : Z) (l : list A) :
  1 ≤ L → aislice_cut (Some L) 1 l = take (Z.to_nat L) l.
Proof.
  intros HL. unfold aislice_cut. simpl.
  destruct (L =? 0) eqn:H0; [apply Z.eqb_eq in H0; lia|]. simpl.
  f_equal. lia.
Qed.

(** When [_iter] yields the items [O] and stops, [flatten] returns the
    first [L] of them under a limit [L] of at least one, and all of them
    under no limit and under the limit [0]. *)
Lemma flatten_limit (self : IDPagintor X) (env : Env W) O s' :
  drains (_iter_pull id function) (_iter self env) O s' →
  (∀ L, limit self = Some L → 0 ≤ L) →
  ∃ N, ∀ fuel, (N ≤ fuel)%nat →
    ∃ st, flatten id function fuel self env
          = Some (Ok (aislice_cut (limit self) 1 O), st).
Proof.
  intros Hd Hlim.
  destruct (aislice_drains _ (limit self) _ _ _ Hd) with
    (last := @None Z) (i := 1) as [st Hst]; [|by left|].
  { destruct (limit self) as [L|] eqn:HL; [|done]. simpl.
    intros H0. apply negb_true_iff, Z.eqb_neq in H0.
    specialize (Hlim L eq_refl). lia. }
  apply drains_collect in Hst as [N HN].
  exists N. intros fuel Hfuel. exists st. by apply HN.
Qed.

(** The prefix under a limit of at least one. *)
Lemma flatten_limit_prefix (self : IDPagintor X) (env : Env W) O s' L :
  drains (_iter_pull id function) (_iter self env) O s' →
  limit self = Some L → 1 ≤ L →
  ∃ N, ∀ fuel, (N ≤ fuel)%nat →
    fst <$> flatten id function fuel self env = Some (Ok (take (Z.to_nat L) O)).
Proof.
  intros Hd HL H1.
  destruct (flatten_limit self env O s' Hd) as [N HN].
  { intros L' HL'. rewrite HL in HL'. injection HL' as <-. lia. }
  exists N. intros fuel Hfuel. destruct (HN fuel Hfuel) as [st ->].
  by rewrite HL, aislice_cut_take.
Qed.

(** Everything under the limit [0], as under no limit. *)
Lemma flatten_limit_falsy (self : IDPagintor X) (env : Env W) O s' :
  drains (_iter_pull id function) (_iter self env) O s' →
  limit self = None ∨ limit self = Some 0 →
  ∃ N, ∀ fuel, (N ≤ fuel)%nat →
    fst <$> flatten id function fuel self env = Some (Ok O).
Proof.
  intros Hd HL.
  destruct (flatten_limit self env O s' Hd) as [N HN].
  { intros L' HL'. destruct HL as [HL|HL]; rewrite HL in HL'; [done|].
    injection HL' as <-. lia. }
  exists N. intros fuel Hfuel. destruct (HN fuel Hfuel) as [st ->].
  rewrite aislice_cut_falsy; [done|]. by destruct HL as [-> | ->].
Qed.
End LimitFacts.

(** C3, as the code has it at the limit [0]: [aislice] takes a [stop] of
    [0] for no [stop] at all, so that a paginator with limit [0] over one
    page of three items yields the three items, as it does with no limit,
    and not the empty prefix. *)
Theorem flatten_limit_zero_yields_all :
  let run limit :=
    fst <$> flatten Fixture.ident Fixture.serve 5
              (Fixture.paginator limit 0%nat) (Fixture.outside [[5; 3; 1]]) in
  run None = Some (Ok [5; 3; 1]) ∧
  run (Some 0) = Some (Ok [5; 3; 1]) ∧
  run (Some 0) ≠ Some (Ok (take 0 [5; 3; 1])) ∧
  run (Some 2) = Some (Ok (take 2 [5; 3; 1])).
Proof. vm_compute. repeat split; done. Qed.

(** ** Examples *)

(** Three sources with keys [1,4,7], [2,5] and [3,6,8,9]. *)
Example heapq_merge_three_sources :
  heapq_merge (λ x : Z, x) [[1; 4; 7]; [2; 5]; [3; 6; 8; 9]]
  = [1; 2; 3; 4; 5; 6; 7; 8; 9].
Proof. reflexivity. Qed.

(** A page of twenty items and then a page of two: the paginator is
    exhausted after the second call of [function] only, and a further
    [next_page] raises. *)
Example two_pages :
  let w := [reverse (seqZ 1 22)] in
  let p0 := Fixture.paginator None 0%nat in
  let '(r1, p1, e1) := next_page Fixture.ident Fixture.serve p0 (Fixture.outside w) in
  let '(r2, p2, e2) := next_page Fixture.ident Fixture.serve p1 e1 in
  let '(r3, p3, e3) := next_page Fixture.ident Fixture.serve p2 e2 in
  r1 = Ok (reverse (seqZ 3 20)) ∧ exhausted p1 = false ∧ end_id p1 = Some 3 ∧
  r2 = Ok [2; 1] ∧ exhausted p2 = true ∧
  r3 = Raise (mkExc "Exception" "No more pages") ∧ fetches e3 = [0; 3] ∧
  fst <$> flatten Fixture.ident Fixture.serve 30 p0 (Fixture.outside w)
    = Some (Ok (reverse (seqZ 1 22))).
Proof. vm_compute. repeat split; done. Qed.

(** Under the limit 4 the lazy and the eager merge of three sources give
    the four newest items; under the limit 0 the lazy merge gives every
    item and the eager one none. *)
Example merged_limits :
  let w := [[7; 4; 1]; [5; 2]; [9; 8; 6; 3]] in
  let run lazy limit :=
    fst <$> (merged_flatten Fixture.ident Fixture.serve Fixture.newest_first
               (λ _, tt) Fixture.in_order lazy 40 (Fixture.merged limit w [0; 1; 2]%nat) []).1 in
  run true (Some 4) = Some (Ok [9; 8; 7; 6]) ∧
  run false (Some 4) = Some (Ok [9; 8; 7; 6]) ∧
  run true (Some 0) = Some (Ok [9; 8; 7; 6; 5; 4; 3; 2; 1]) ∧
  run false (Some 0) = Some (Ok []).
Proof. vm_compute. repeat split; done. Qed.

(** ** The theorems at concrete inputs *)

Lemma next_page_advances_witness :
  end_id (Fixture.paginator None 0%nat) = Some 0 ∧
  Fixture.serve 0%nat 0 [[5; 3; 1]] = (Ok [5; 3; 1], [[5; 3; 1]]) ∧
  ∃ self',
    next_page Fixture.ident Fixture.serve (Fixture.paginator None 0%nat)
      (Fixture.outside [[5; 3; 1]])
      = (Ok [5; 3; 1], self', mkEnv [[5; 3; 1]] [0]) ∧
    exhausted self' = true.
Proof.
  split; [reflexivity|]. split; [reflexivity|].
  destruct (next_page_advances Fixture.ident Fixture.serve
              (Fixture.paginator None 0%nat) (Fixture.outside [[5; 3; 1]])
              0 [5; 3; 1] [[5; 3; 1]] eq_refl eq_refl)
    as (self' & Hn & _ & _ & Hex & _).
  exists self'. split; [exact Hn|]. apply Hex. simpl. lia.
Defined.

Lemma next_page_exhausted_raises_witness :
  let self := mkPaginator None None () in
  let self2 := mkPaginator None (Some 0) () in
  let env := mkEnv () [] in
  exhausted self = true ∧
  next_page Fixture.ident Fixture.serve_no_more self env
    = (Raise (mkExc "Exception" "No more pages"), self, env) ∧
  exhausted self2 = false ∧
  ∃ self2' env2',
    next_page Fixture.ident Fixture.serve_no_more self2 env
      = (Raise (mkExc "Exception" "No more pages"), self2', env2') ∧
    exhausted self2' = false ∧ fetches env2' = [0].
Proof.
  intros self self2 env.
  destruct (next_page_exhausted_raises Fixture.ident Fixture.serve_no_more
              self env eq_refl) as (Hn & _ & _ & Hother).
  split; [reflexivity|]. split; [exact Hn|]. split; [reflexivity|].
  exists self2, (mkEnv () [0]). split; [reflexivity|].
  destruct (Hother self2 env (mkExc "Exception" "No more pages") self2
              (mkEnv () [0]) eq_refl eq_refl) as (c & Hc & _ & Hlog & _ & Hex).
  injection Hc as <-. split; [exact Hex|exact Hlog].
Defined.

(** C6 as stated fails: what [next_page] raises on an exhausted paginator
    is an instance of the plain [Exception], not of an [ExhaustedError],
    which the code does not have. *)
Lemma next_page_exhausted_plain_exception :
  let self := mkPaginator None None 0%nat in
  let env := Fixture.outside [[5; 3; 1]] in
  exhausted self = true ∧
  ∃ e, (next_page Fixture.ident Fixture.serve self env).1.1 = Raise e ∧
       exc_type e = "Exception" ∧
       exc_type e ≠ "ExhaustedError".
Proof.
  intros self env. split; [reflexivity|].
  exists (mkExc "Exception" "No more pages").
  split; [reflexivity|]. split; [reflexivity|]. discriminate.
Qed.

Lemma exhausted_terminal_witness :
  exhausted (mkPaginator (Some 3) None 0%nat) = true ∧
  flatten Fixture.ident Fixture.serve 1 (mkPaginator (Some 3) None 0%nat)
    (Fixture.outside [[5; 3; 1]])
  = Some (Ok [], __aiter__ (mkPaginator (Some 3) None 0%nat)
                   (Fixture.outside [[5; 3; 1]])).
Proof.
  split; [reflexivity|].
  apply (exhausted_terminal Fixture.ident Fixture.serve
           (mkPaginator (Some 3) None 0%nat) (Fixture.outside [[5; 3; 1]]) eq_refl).
Defined.

Lemma operations_frame_witness :
  ∃ st, flatten Fixture.ident Fixture.serve 5 (Fixture.paginator (Some 2) 0%nat)
          (Fixture.outside [[5; 3; 1]]) = Some (Ok [5; 3], st) ∧
        state_self st
        = set_end_id (end_id (state_self st)) (Fixture.paginator (Some 2) 0%nat).
Proof.
  destruct (flatten Fixture.ident Fixture.serve 5 (Fixture.paginator (Some 2) 0%nat)
              (Fixture.outside [[5; 3; 1]])) as [[r st]|] eqn:Hf;
    [|discriminate Hf].
  exists st. split.
  - revert Hf. vm_compute. intros [= <- <-]. reflexivity.
  - apply (operations_frame Fixture.ident Fixture.serve
             (Fixture.paginator (Some 2) 0%nat) (Fixture.outside [[5; 3; 1]]))
      with (fuel := 5%nat) (r := r). exact Hf.
Defined.

Lemma flatten_eager_fails_fast_witness :
  let m := Fixture.merged None Fixture.three_sources [0; 7; 2]%nat in
  let c := (Fixture.paginator None 7%nat, Fixture.outside Fixture.three_sources) in
  let e := mkExc "UpstreamFetchError" "unknown source" in
  _paginators m !! 1%nat = Some c ∧
  (∃ st, flatten Fixture.ident Fixture.serve 40 c.1 c.2 = Some (Raise e, st)) ∧
  ∃ m', (merged_flatten Fixture.ident Fixture.serve Fixture.newest_first
           (λ _, tt) Fixture.in_order false 40 m []).1 = Some (Raise e, m').
Proof.
  intros m c e.
  assert (H2 : ∃ st, flatten Fixture.ident Fixture.serve 40 c.1 c.2
                     = Some (Raise e, st)).
  { eexists. lazy. reflexivity. }
  split; [reflexivity|]. split; [exact H2|].
  destruct H2 as [st H2].
  destruct (flatten_eager_fails_fast Fixture.ident Fixture.serve
              Fixture.newest_first (λ _, tt) Fixture.in_order m 40%nat [] 1%nat
              c e st eq_refl H2)
    as (e' & m' & Hm & _).
  assert (e' = e) as <- by (revert Hm; vm_compute; by intros [= <- _]).
  exists m'. exact Hm.
Defined.

Lemma flatten_lazy_eager_agree_witness :
  let m := Fixture.merged (Some 9) Fixture.three_sources [0; 1; 2]%nat in
  Forall2 (λ c l, ∃ n st, flatten Fixture.ident Fixture.serve n c.1 c.2
                          = Some (Ok l, st))
    (_paginators m) Fixture.three_sources ∧
  Z.of_nat (length (concat Fixture.three_sources)) ≤ 9 ∧
  ∃ N, ∀ fuel (tasks : list unit), (N ≤ fuel)%nat →
    ∃ m1 m2,
      (merged_flatten Fixture.ident Fixture.serve Fixture.newest_first
         (λ _, tt) Fixture.in_order true fuel m tasks).1
        = Some (Ok (heapq_merge Fixture.newest_first Fixture.three_sources), m1) ∧
      (merged_flatten Fixture.ident Fixture.serve Fixture.newest_first
         (λ _, tt) Fixture.in_order false fuel m tasks).1
        = Some (Ok (heapq_merge Fixture.newest_first Fixture.three_sources), m2).
Proof.
  intros m.
  assert (H1 : Forall2 (λ c l, ∃ n st, flatten Fixture.ident Fixture.serve n c.1 c.2
                                       = Some (Ok l, st))
                 (_paginators m) Fixture.three_sources).
  { repeat constructor; exists 10%nat; eexists; lazy; reflexivity. }
  assert (H2 : Z.of_nat (length (concat Fixture.three_sources)) ≤ 9).
  { simpl. lia. }
  split; [exact H1|]. split; [exact H2|].
  apply (flatten_lazy_eager_agree Fixture.ident Fixture.serve Fixture.newest_first
           (λ _, tt) Fixture.in_order m Fixture.three_sources H1).
  right. exists 9. split; [reflexivity|exact H2].
Defined.

Lemma Transactions_function_items_witness :
  let items := [Fixture.artifact 2 1004 "Domain reward" "Gladiator's Nostalgia";
                Fixture.artifact 1 77 "" "Wanderer's String-Kettle"] in
  let w' := mkWorld ()
              [Call__get_transaction_reasons "en-us";
               Call_request_transaction "getArtifactLog" (Some "en-us") None 0 20] in
  (∀ s, Fixture.str_validator (VStr s) = Some s) ∧
  Transactions_function Fixture.client Fixture.int_validator Fixture.str_validator
    Fixture.int_validator Fixture.artifacts 0 (mkWorld () []) = (Ok items, w') ∧
  (∃ raws, Forall2 (λ (trans : gmap string pyval) x,
                      is_item x = true ↔ is_Some (trans !! "name")) raws items) ∧
  Transactions_function Fixture.ordered_client Fixture.int_validator
    Fixture.str_validator Fixture.int_validator Fixture.primogems 0 (mkWorld [] [])
  = (Ok [Fixture.primogem 0 1004 "Daily commission"],
     mkWorld ["page"; "reasons"]
       [Call__get_transaction_reasons "en-us";
        Call_request_transaction "getPrimogemLog" (Some "en-us") None 0 20]).
Proof.
  intros items w'.
  assert (H1 : ∀ s, Fixture.str_validator (VStr s) = Some s) by reflexivity.
  assert (H2 : Transactions_function Fixture.client Fixture.int_validator
                 Fixture.str_validator Fixture.int_validator Fixture.artifacts 0
                 (mkWorld () []) = (Ok items, w')).
  { vm_compute. reflexivity. }
  split; [exact H1|]. split; [exact H2|]. split.
  - destruct (Transactions_function_items Fixture.client Fixture.int_validator
                Fixture.str_validator Fixture.int_validator Fixture.artifacts 0
                (mkWorld () []) H1) as (Hitems & _ & _).
    destruct (Hitems items w' H2)
      as (data & s1 & reasons & s2 & raws & _ & _ & _ & Hall).
    exists raws. eapply Forall2_impl; [exact Hall|].
    intros trans x (Hi & _). exact Hi.
  - destruct (Transactions_function_items Fixture.ordered_client
                Fixture.int_validator Fixture.str_validator Fixture.int_validator
                Fixture.primogems 0 (mkWorld [] []) H1) as (_ & Hbuilds & Hpage).
    assert (Hrecord : make_transaction Fixture.int_validator Fixture.str_validator
                        Fixture.int_validator Fixture.primogems
                        {[ VInt 1004 := "Daily commission" ]}
                        (Fixture.plain_record 0 1004)
                      = Ok (Fixture.primogem 0 1004 "Daily commission")).
    { destruct (Hbuilds {[ VInt 1004 := "Daily commission" ]}
                  (Fixture.plain_record 0 1004) (VInt 1004) 0 700000001
                  1600000000 60 1004 eq_refl eq_refl eq_refl eq_refl eq_refl
                  eq_refl eq_refl eq_refl) as [Hplain _].
      apply Hplain; [reflexivity|]. apply elem_of_cons. by left. }
    assert (Hall : Forall2
                     (λ trans x,
                        make_transaction Fixture.int_validator
                          Fixture.str_validator Fixture.int_validator
                          Fixture.primogems {[ VInt 1004 := "Daily commission" ]}
                          trans = Ok x)
                     [Fixture.plain_record 0 1004]
                     [Fixture.primogem 0 1004 "Daily commission"]).
    { constructor; [exact Hrecord|constructor]. }
    exact (Hpage {[ "list" := [Fixture.plain_record 0 1004] ]} ["page"]
             {[ VInt 1004 := "Daily commission" ]} ["page"; "reasons"]
             [Fixture.plain_record 0 1004]
             [Fixture.primogem 0 1004 "Daily commission"]
             eq_refl eq_refl eq_refl Hall).
Defined.


(** * Further properties *)

(** ** Runs of a paginator *)

Section GeneratorRuns.
Context {A S : Type}.
Variable pull : S → step A S.

(** What holds of the state a run ends in: [P] is kept by the resumptions
    that go on, and gives [Q] at the resumption that ends the run. *)
Lemma collect_final (P Q : S → Prop) :
  (∀ s, P s → match pull s with
              | Yield _ s' | Tau s' => P s'
              | Stop s' | Throw _ s' => Q s'
              end) →
  ∀ fuel s r s', P s → collect pull fuel s = Some (r, s') → Q s'.
Proof.
  intros Hstep. induction fuel as [|fuel IH]; intros s r s' HP; [done|].
  simpl. specialize (Hstep s HP).
  destruct (pull s) as [a s1|s1|s1|e s1].
  - destruct (collect pull fuel s1) as [[r1 s2]|] eqn:Hc; [|done].
    intros Heq. apply (IH s1 r1 s2 Hstep) in Hc.
    destruct r1; by simplify_eq.
  - by apply IH.
  - by intros [= <- <-].
  - by intros [= <- <-].
Qed.

(** A run that raises ends at the resumption that threw. *)
Lemma collect_raise_last fuel s e s' :
  collect pull fuel s = Some (Raise e, s') → ∃ s0, pull s0 = Throw e s'.
Proof.
  revert s. induction fuel as [|fuel IH]; intros s; [done|]. simpl.
  destruct (pull s) as [a s1|s1|s1|e1 s1] eqn:Hp.
  - destruct (collect pull fuel s1) as [[[l1|e1] s2]|] eqn:Hc; [done| |done].
    intros [= <- <-]. eauto.
  - eauto.
  - done.
  - intros [= <- <-]. eauto.
Qed.
End GeneratorRuns.

Section PaginatorRuns.
Context {T X W : Type}.
Variable id : T → Z.
Variable function : X → Z → W → result (list T) * W.

#[local] Abbreviation run_pull := (__aiter___pull id function).
#[local] Abbreviation pages_of := (next_pages id function).

Lemma aislice_done_falsy (stop last : option Z) :
  truthy stop = false → aislice_done stop last = false.
Proof. intros H. unfold aislice_done. destruct last; [|done]. by rewrite H. Qed.

Lemma collect_S {A S} (pull : S → step A S) fuel s :
  collect pull (Datatypes.S fuel) s
  = match pull s with
    | Yield a s' =>
        match collect pull fuel s' with
        | Some (Ok l, s'') => Some (Ok (a :: l), s'')
        | other => other
        end
    | Tau s' => collect pull fuel s'
    | Stop s' => Some (Ok [], s')
    | Throw e s' => Some (Raise e, s')
    end.
Proof. done. Qed.

(** One resumption of the iteration of a paginator, spelled out. *)
Lemma run_pull_unfold stop last i buf (self : IDPagintor X) (env : Env W) :
  run_pull (mkAislice stop last (i, mkIter buf self env))
  = if aislice_done stop last
    then Stop (mkAislice stop last (i, mkIter buf self env))
    else
      match buf with
      | x :: rest => Yield x (mkAislice stop (Some i) (i + 1, mkIter rest self env))
      | [] =>
          if exhausted self
          then Stop (mkAislice stop last (i, mkIter [] self env))
          else
            match next_page id function self env with
            | (Ok data, self', env') =>
                Tau (mkAislice stop last (i, mkIter data self' env'))
            | (Raise e, self', env') =>
                Throw e (mkAislice stop last (i, mkIter [] self' env'))
            end
      end.
Proof.
  unfold __aiter___pull, aislice_pull. simpl.
  destruct (aislice_done stop last); [done|].
  unfold _iter_pull. simpl. destruct buf as [|x buf]; [|done].
  destruct (exhausted self); [done|].
  by destruct (next_page id function self env) as [[[data|e] self'] env'].
Qed.

(** An iteration that no [stop] cuts yields the page at hand and then the
    pages [next_page] returns until the paginator is exhausted. *)
Lemma unlimited_run fuel stop last i buf (self : IDPagintor X) (env : Env W) O st :
  truthy stop = false →
  collect run_pull fuel (mkAislice stop last (i, mkIter buf self env))
    = Some (Ok O, st) →
  ∃ n pages,
    pages_of n self env = Some (Ok pages, state_self st, state_env st) ∧
    O = buf ++ concat pages ∧ exhausted (state_self st) = true.
Proof.
  intros Hstop. revert last i buf self env O.
  induction fuel as [|fuel IH]; intros last i buf self env O; [done|].
  rewrite collect_S, run_pull_unfold, (aislice_done_falsy _ _ Hstop).
  destruct buf as [|x buf].
  - destruct (exhausted self) eqn:Hex.
    + intros [= <- <-]. exists 1%nat, []. simpl. by rewrite Hex.
    + destruct (next_page id function self env) as [[[data|e] self'] env'] eqn:Hn;
        [|done].
      intros Hc. destruct (IH _ _ _ _ _ _ Hc) as (n & pages & Hp & -> & Hfin).
      exists (Datatypes.S n), (data :: pages). simpl. by rewrite Hex, Hn, Hp.
  - destruct (collect _ fuel _) as [[[l|e] st']|] eqn:Hc; [|done..].
    intros [= <- <-].
    destruct (IH _ _ _ _ _ _ Hc) as (n & pages & Hp & -> & Hfin). eauto.
Qed.

Lemma unlimited_run_complete n (self : IDPagintor X) (env : Env W) pages self' env' :
  pages_of n self env = Some (Ok pages, self', env') →
  ∀ stop last i buf, truthy stop = false →
  ∃ N, ∀ fuel, (N ≤ fuel)%nat →
    ∃ st, collect run_pull fuel (mkAislice stop last (i, mkIter buf self env))
          = Some (Ok (buf ++ concat pages), st) ∧
          state_self st = self' ∧ state_env st = env'.
Proof.
  revert self env pages. induction n as [|n IH]; intros self env pages; [done|].
  simpl. intros Hp stop last i buf Hstop. revert last i.
  induction buf as [|x buf IHbuf]; intros last i.
  - destruct (exhausted self) eqn:Hex.
    + injection Hp as <- <- <-. exists 1%nat. intros [|fuel] ?; [lia|].
      eexists. rewrite collect_S, run_pull_unfold, (aislice_done_falsy _ _ Hstop).
      by rewrite Hex.
    + destruct (next_page id function self env) as [[[data|e] self1] env1] eqn:Hn;
        [|done].
      destruct (pages_of n self1 env1) as [[[[ps|e] self2] env2]|] eqn:Hps;
        [|done..].
      injection Hp as <- <- <-.
      destruct (IH _ _ _ Hps stop last i data Hstop) as [N HN].
      exists (Datatypes.S N). intros [|fuel] ?; [lia|].
      destruct (HN fuel) as (st & Hc & Hs & He); [lia|].
      exists st. rewrite collect_S, run_pull_unfold, (aislice_done_falsy _ _ Hstop).
      by rewrite Hex, Hn.
  - destruct (IHbuf (Some i) (i + 1)) as [N HN].
    exists (Datatypes.S N). intros [|fuel] ?; [lia|].
    destruct (HN fuel) as (st & Hc & Hs & He); [lia|].
    exists st. rewrite collect_S, run_pull_unfold, (aislice_done_falsy _ _ Hstop).
    by rewrite Hc.
Qed.

(** X1: without a limit, what [flatten] returns is the concatenation, in
    order, of the pages [next_page] returns when it is called until the
    paginator is exhausted; and whenever those calls end, [flatten] returns
    that list and leaves the paginator and the outside as they do. *)
Theorem flatten_concat_pages (self : IDPagintor X) (env : Env W) :
  limit self = None →
  (∀ fuel O st,
     flatten id function fuel self env = Some (Ok O, st) →
     ∃ n pages,
       pages_of n self env = Some (Ok pages, state_self st, state_env st) ∧
       O = concat pages) ∧
  (∀ n pages self' env',
     pages_of n self env = Some (Ok pages, self', env') →
     ∃ N, ∀ fuel, (N ≤ fuel)%nat →
       ∃ st, flatten id function fuel self env = Some (Ok (concat pages), st) ∧
             state_self st = self' ∧ state_env st = env').
Proof.
  intros Hlim. split.
  - intros fuel O st Hf.
    destruct (unlimited_run fuel (limit self) None 1 [] self env O st)
      as (n & pages & Hp & -> & _); [by rewrite Hlim|exact Hf|]. eauto.
  - intros n pages self' env' Hp.
    destruct (unlimited_run_complete n self env pages self' env' Hp
                (limit self) None 1 []) as [N HN]; [by rewrite Hlim|].
    exists N. intros fuel Hfuel. destruct (HN fuel Hfuel) as (st & Hc & Hs & He).
    by exists st.
Qed.

(** X2: after a [flatten] without limit has returned, the paginator is
    exhausted: a further [flatten] returns the empty list, calls [function]
    no more and changes nothing; the iteration does not start again. *)
Theorem flatten_not_restartable (self : IDPagintor X) (env : Env W) fuel O st :
  limit self = None →
  flatten id function fuel self env = Some (Ok O, st) →
  exhausted (state_self st) = true ∧
  ∀ fuel',
    flatten id function (Datatypes.S fuel') (state_self st) (state_env st)
    = Some (Ok [], __aiter__ (state_self st) (state_env st)).
Proof.
  intros Hlim Hf.
  destruct (unlimited_run fuel (limit self) None 1 [] self env O st)
    as (n & pages & _ & _ & Hex); [by rewrite Hlim|exact Hf|].
  split; [done|]. intros fuel'. by apply flatten_exhausted.
Qed.

Lemma next_pages_shape n (self : IDPagintor X) (env : Env W) pages self' env' :
  pages_of n self env = Some (Ok pages, self', env') →
  length (fetches env') = (length (fetches env) + length pages)%nat ∧
  exhausted self' = true ∧
  ∀ k data, pages !! k = Some data →
    if decide (Datatypes.S k = length pages)
    then Z.of_nat (length data) < page_size
    else page_size ≤ Z.of_nat (length data).
Proof.
  revert self env pages. induction n as [|n IH]; intros self env pages; [done|].
  simpl. destruct (exhausted self) eqn:Hex.
  - intros [= <- <- <-]. simpl. split; [lia|]. by split.
  - destruct (next_page id function self env) as [[[data|e] self1] env1] eqn:Hn;
      [|done].
    destruct (pages_of n self1 env1) as [[[[ps|e] self2] env2]|] eqn:Hps; [|done..].
    intros [= <- <- <-]. destruct (IH _ _ _ Hps) as (Hlen & Hfin & Hshape).
    assert (length (fetches env1) = Datatypes.S (length (fetches env)) ∧
            (exhausted self1 = true ↔ Z.of_nat (length data) < page_size))
      as [Hlog Hshort].
    { revert Hn. unfold next_page, call_function. unfold exhausted in Hex.
      destruct (end_id self) as [c|]; [|done].
      destruct (function _ _ _) as [[d|e] w]; [|done].
      destruct (Z.of_nat (length d) <? page_size) eqn:Hlt.
      - intros [= <- <- <-]. simpl. rewrite length_app. simpl.
        apply Z.ltb_lt in Hlt. split; [lia|]. done.
      - destruct (last d); [|done]. intros [= <- <- <-]. simpl.
        rewrite length_app. simpl. apply Z.ltb_ge in Hlt. split; [lia|].
        unfold exhausted. simpl. split; [done|lia]. }
    split; [simpl; lia|]. split; [done|].
    intros [|k] d; simpl.
    + intros [= <-]. destruct ps as [|p ps].
      * rewrite decide_True by done. apply Hshort.
        destruct n as [|n]; [done|]. simpl in Hps.
        destruct (exhausted self1); [done|].
        destruct (next_page id function self1 env1) as [[[d1|e1] s1] e1']; [|done].
        by destruct (pages_of n s1 e1') as [[[[?|?] ?] ?]|].
      * rewrite decide_False by (simpl; lia).
        destruct (Z.lt_ge_cases (Z.of_nat (length data)) page_size) as [Hlt|]; [|lia].
        apply Hshort in Hlt. destruct n as [|n]; [done|]. simpl in Hps.
        by rewrite Hlt in Hps.
    + intros Hk. specialize (Hshape k d Hk).
      destruct (decide (Datatypes.S k = length ps)).
      * by rewrite decide_True by (simpl; lia).
      * by rewrite decide_False by (simpl; lia).
Qed.
End PaginatorRuns.

Section PaginatorRunClaims.
Context {T X W : Type}.
Variable id : T → Z.
Variable function : X → Z → W → result (list T) * W.

Lemma pages_shape_length (pages : list (list T)) :
  (∀ k data, pages !! k = Some data →
     if decide (Datatypes.S k = length pages)
     then Z.of_nat (length data) < page_size
     else page_size ≤ Z.of_nat (length data)) →
  page_size * (Z.of_nat (length pages) - 1) ≤ Z.of_nat (length (concat pages)).
Proof.
  unfold page_size. induction pages as [|p pages IH]; intros Hshape; simpl; [lia|].
  rewrite length_app. destruct pages as [|q pages]; [simpl; lia|].
  assert (20 ≤ Z.of_nat (length p)) as Hp.
  { specialize (Hshape O p eq_refl). by rewrite decide_False in Hshape by done. }
  assert (20 * (Z.of_nat (length (q :: pages)) - 1)
          ≤ Z.of_nat (length (concat (q :: pages)))) as Hrest.
  { apply IH. intros k d Hk. specialize (Hshape (Datatypes.S k) d Hk).
    destruct (decide (Datatypes.S k = length (q :: pages))).
    - by rewrite decide_True in Hshape by (simpl in *; lia).
    - by rewrite decide_False in Hshape by (simpl in *; lia). }
  simpl in *. lia.
Qed.

(** X3: a [flatten] without limit that returns has called [function] once
    for every page, at least once on a paginator that was not exhausted, and
    every page but the last held at least twenty items: for a list of [n]
    items it made at most [n / 20 + 1] calls. *)
Theorem flatten_fetch_count (self : IDPagintor X) (env : Env W) fuel O st :
  limit self = None →
  flatten id function fuel self env = Some (Ok O, st) →
  let calls :=
    Z.of_nat (length (fetches (state_env st))) - Z.of_nat (length (fetches env)) in
  0 ≤ calls ∧
  page_size * (calls - 1) ≤ Z.of_nat (length O) ∧
  (exhausted self = false → 1 ≤ calls).
Proof.
  intros Hlim Hf calls.
  destruct (unlimited_run id function fuel (limit self) None 1 [] self env O st)
    as (n & pages & Hp & -> & _); [by rewrite Hlim|exact Hf|].
  destruct (next_pages_shape id function _ _ _ _ _ _ Hp) as (Hlen & _ & Hshape).
  apply pages_shape_length in Hshape. simpl.
  assert (calls = Z.of_nat (length pages)) as -> by (unfold calls; lia).
  split; [lia|]. split; [done|].
  intros Hex. destruct n as [|n]; [done|]. simpl in Hp. rewrite Hex in Hp.
  destruct (next_page id function self env) as [[[d|e] s1] e1]; [|done].
  destruct (next_pages id function n s1 e1) as [[[[ps|?] ?] ?]|]; [|done..].
  injection Hp as <- _ _. simpl. lia.
Qed.

Lemma next_page_raise_state (self : IDPagintor X) (env : Env W) e self' env' :
  exhausted self = false →
  next_page id function self env = (Raise e, self', env') →
  ∃ c w', end_id self = Some c ∧
          function (ext self) c (world env) = (Raise e, w') ∧
          self' = self ∧ env' = mkEnv w' (fetches env ++ [c]).
Proof.
  unfold exhausted, next_page, call_function.
  destruct (end_id self) as [c|]; [|done]. intros _.
  destruct (function _ _ _) as [[data|e0] w] eqn:Hf.
  - destruct (_ <? _) eqn:Hlt; [done|].
    destruct data as [|x data]; [done|].
    destruct (last (x :: data)) eqn:Hlast; [done|].
    by apply last_None in Hlast.
  - intros [= <- <- <-]. exists c, w. by rewrite Hf.
Qed.

(** X4: when [flatten] raises, the paginator is left as it was before the
    call of [function] that failed: not exhausted, its cursor the one that
    call was made with, so that a further [next_page] or [flatten] makes the
    same call again; and the exception is the one [function] raised. *)
Theorem flatten_raise_resumable (self : IDPagintor X) (env : Env W) fuel e st :
  flatten id function fuel self env = Some (Raise e, st) →
  ∃ c w,
    end_id (state_self st) = Some c ∧
    (function (ext (state_self st)) c w).1 = Raise e ∧
    world (state_env st) = (function (ext (state_self st)) c w).2 ∧
    last (fetches (state_env st)) = Some c.
Proof.
  intros Hf. apply collect_raise_last in Hf as [s0 Hp].
  destruct s0 as [stop last [i [buf self0 env0]]].
  rewrite run_pull_unfold in Hp.
  destruct (aislice_done stop last); [done|].
  destruct buf as [|x buf]; [|done].
  destruct (exhausted self0) eqn:Hex; [done|].
  destruct (next_page id function self0 env0) as [[[data|e0] self1] env1] eqn:Hn;
    [done|].
  injection Hp as <- <-.
  apply next_page_raise_state in Hn as (c & w' & Hc & Hfun & -> & ->); [|done].
  exists c, (world env0). unfold state_self, state_env. simpl.
  rewrite Hfun. simpl. repeat split; try done. by rewrite last_snoc.
Qed.
End PaginatorRunClaims.

(** ** Limits and laziness *)

Section AisliceBound.
Context {A S : Type}.
Variable pull : S → step A S.

(** One resumption of [aislice], spelled out. *)
Lemma aislice_pull_unfold stop last i s :
  aislice_pull pull (mkAislice stop last (i, s))
  = if aislice_done stop last then Stop (mkAislice stop last (i, s))
    else
      match pull s with
      | Yield x s' => Yield x (mkAislice stop (Some i) (i + 1, s'))
      | Tau s' => Tau (mkAislice stop last (i, s'))
      | Stop s' => Stop (mkAislice stop last (i, s'))
      | Throw e s' => Throw e (mkAislice stop last (i, s'))
      end.
Proof.
  unfold aislice_pull. simpl. destruct (aislice_done stop last); [done|].
  by destruct (pull s).
Qed.

(** [aislice] with a [stop] other than [0] lets through at most [stop]
    items, and one item when [stop] is negative. *)
Lemma collect_aislice_bound (L : Z) fuel last i s l st :
  L ≠ 0 → 1 ≤ i →
  (last = None ∧ i = 1) ∨ last = Some (i - 1) →
  collect (aislice_pull pull) fuel (mkAislice (Some L) last (i, s)) = Some (Ok l, st) →
  Z.of_nat (length l) ≤ Z.max 0 (Z.max 1 L - (i - 1)).
Proof.
  intros HL. revert last i s l.
  induction fuel as [|fuel IH]; intros last i s l Hi Hinv; [done|].
  rewrite collect_S, aislice_pull_unfold.
  destruct (aislice_done (Some L) last) eqn:Hdone.
  { intros [= <- _]. simpl. lia. }
  assert (i - 1 < Z.max 1 L) as Hroom.
  { destruct Hinv as [[_ ->] | ->]; [lia|]. simpl in Hdone.
    destruct (L =? 0) eqn:H0; [apply Z.eqb_eq in H0; lia|]. simpl in Hdone.
    apply Z.leb_gt in Hdone. lia. }
  destruct (pull s) as [a s1|s1|s1|e s1].
  - destruct (collect _ fuel _) as [[[l1|e1] st1]|] eqn:Hc; [|done..].
    intros [= <- <-]. apply IH in Hc; [|lia|right; f_equal; lia].
    simpl. lia.
  - intros Hc. by apply IH in Hc.
  - intros [= <- _]. simpl. lia.
  - done.
Qed.
End AisliceBound.

Section LimitClaims.
Context {T X W : Type}.
Variable id : T → Z.
Variable function : X → Z → W → result (list T) * W.

(** X5: under a limit [L] other than [0], [flatten] returns at most [L]
    items, and at most one when [L] is negative, whatever [function]
    returns. *)
Theorem flatten_limit_bound (self : IDPagintor X) (env : Env W) fuel L l st :
  limit self = Some L → L ≠ 0 →
  flatten id function fuel self env = Some (Ok l, st) →
  Z.of_nat (length l) ≤ Z.max 1 L.
Proof.
  intros HL H0 Hf. unfold flatten, __aiter__, aislice, aenumerate in Hf.
  rewrite HL in Hf.
  apply collect_aislice_bound in Hf; [lia|done|lia|by left].
Qed.

Lemma next_page_log (self : IDPagintor X) (env : Env W) r self' env' :
  exhausted self = false →
  next_page id function self env = (r, self', env') →
  length (fetches env') = Datatypes.S (length (fetches env)) ∧
  ∀ data, r = Ok data → exhausted self' = false →
          page_size ≤ Z.of_nat (length data).
Proof.
  unfold exhausted at 1, next_page, call_function.
  destruct (end_id self) as [c|]; [|done]. intros _.
  destruct (function _ _ _) as [[data|e0] w].
  - destruct (_ <? _) eqn:Hlt.
    + intros [= <- <- <-]. simpl. rewrite length_app. simpl. split; [lia|]. done.
    + apply Z.ltb_ge in Hlt.
      destruct (last data); intros [= <- <- <-]; simpl; rewrite length_app; simpl;
        (split; [lia|]); [|done].
      by intros d [= <-] _.
  - intros [= <- <- <-]. simpl. rewrite length_app. simpl. split; [lia|]. done.
Qed.

(** X6: the iteration is lazy.  Under a limit [L] of at least one,
    [flatten] calls [function] again only when the items of all the pages
    so far have been yielded and are fewer than [L]; every page that leaves
    the paginator not exhausted holds at least twenty items, so that
    [flatten] makes at most [(L + 19) / 20] calls, whether it returns or
    raises. *)
Theorem flatten_fetch_bound (self : IDPagintor X) (env : Env W) fuel L r st :
  limit self = Some L → 1 ≤ L →
  flatten id function fuel self env = Some (r, st) →
  let calls :=
    Z.of_nat (length (fetches (state_env st))) - Z.of_nat (length (fetches env)) in
  0 ≤ calls ∧ page_size * calls < L + page_size.
Proof.
  intros HL H1 Hf calls.
  set (n0 := Z.of_nat (length (fetches env))).
  set (made := λ st : AiterState (T:=T) (X:=X) (W:=W),
         Z.of_nat (length (fetches (state_env st))) - n0).
  set (Q := λ st, 0 ≤ made st ∧ 20 * made st < L + 20).
  set (P := λ st : AiterState (T:=T) (X:=X) (W:=W),
         stop st = Some L ∧ 1 ≤ (inner st).1 ∧
         ((last_index st = None ∧ (inner st).1 = 1) ∨
          last_index st = Some ((inner st).1 - 1)) ∧
         Q st ∧
         (exhausted (state_self st) = false →
          20 * made st
          ≤ (inner st).1 - 1 + Z.of_nat (length (page (inner st).2)))).
  refine (collect_final (__aiter___pull id function) P Q _ fuel _ r st _ Hf).
  - intros [stop last [i [buf self0 env0]]] (Hstop & Hi & Hinv & [Hq0 Hq] & Hfull).
    unfold made, state_self, state_env in *. simpl in *. subst stop.
    rewrite run_pull_unfold.
    destruct (aislice_done (Some L) last) eqn:Hdone; [done|].
    destruct buf as [|x buf].
    + destruct (exhausted self0) eqn:Hex; [done|].
      specialize (Hfull eq_refl). simpl in Hfull.
      assert (i - 1 < L) as Hroom.
      { destruct Hinv as [[_ ->] | ->]; [lia|]. simpl in Hdone.
        destruct (L =? 0) eqn:H0; [apply Z.eqb_eq in H0; lia|]. simpl in Hdone.
        apply Z.leb_gt in Hdone. lia. }
      destruct (next_page id function self0 env0) as [[[data|e] self1] env1] eqn:Hn;
        apply next_page_log in Hn as [Hlog Hdata]; try done.
      * unfold P, Q, made, state_self, state_env. simpl.
        repeat split; try done; try lia.
        intros Hex1. specialize (Hdata data eq_refl Hex1). unfold page_size in Hdata.
        lia.
      * unfold Q, made, state_self, state_env. simpl. lia.
    + unfold P, Q, made, state_self, state_env. simpl.
      repeat split; try done; try lia.
      * right. f_equal. lia.
      * intros Hex. specialize (Hfull Hex). simpl in Hfull. lia.
  - unfold P, Q, made, __aiter__, aislice, aenumerate, state_self, state_env, _iter.
    simpl. unfold n0. repeat split; try done; try lia. by left.
Qed.
End LimitClaims.

Section MergePrefix.
Context {A : Type}.
Variable key : A → Z.

Lemma heapq_merge_unfold (lists : list (list A)) :
  heapq_merge key lists
  = match select_min key (head <$> lists) with
    | None => []
    | Some (j, a) => a :: heapq_merge key (alter tail j lists)
    end.
Proof.
  unfold heapq_merge. destruct (length (concat lists)) as [|n] eqn:Hn; simpl.
  - assert (select_min key (head <$> lists) = None) as ->; [|done].
    apply select_min_None, concat_nil_heads. by destruct (concat lists).
  - destruct (select_min key (head <$> lists)) as [[j a]|] eqn:Hs; [|done].
    apply select_min_lookup, concat_alter_tail, Permutation_length in Hs.
    simpl in Hs. do 2 f_equal. lia.
Qed.

Lemma take_prefix_tails k (lists lists' : list (list A)) j :
  Forall2 (λ l l', take (Datatypes.S k) l = take (Datatypes.S k) l') lists lists' →
  Forall2 (λ l l', take k l = take k l') (alter tail j lists) (alter tail j lists').
Proof.
  intros H.
  assert (Htk : ∀ l : list A, take k l = take k (take (Datatypes.S k) l)).
  { intros l. rewrite take_take. f_equal. lia. }
  apply Forall2_alter.
  - eapply Forall2_impl; [exact H|]. intros l l' Hl. simpl.
    by rewrite (Htk l), (Htk l'), Hl.
  - intros l l' Hjl Hjl' _.
    pose proof (Forall2_lookup_lr _ _ _ _ _ _ H Hjl Hjl') as Hl.
    destruct l as [|x l], l' as [|x' l']; simpl in *; try done. by injection Hl.
Qed.

(** The first [k] items of a merge depend on the first [k] items of every
    list only. *)
Lemma heapq_merge_prefix k (lists lists' : list (list A)) :
  Forall2 (λ l l', take k l = take k l') lists lists' →
  take k (heapq_merge key lists) = take k (heapq_merge key lists').
Proof.
  revert lists lists'. induction k as [|k IH]; intros lists lists' H; [done|].
  rewrite (heapq_merge_unfold lists), (heapq_merge_unfold lists').
  assert (head <$> lists = head <$> lists') as ->.
  { clear IH. induction H as [|l l' ? ? Hl _ IH']; [done|]. simpl. f_equal; [|done].
    destruct l, l'; simpl in *; try done. by injection Hl as ->. }
  destruct (select_min key (head <$> lists')) as [[j a]|]; [|done].
  simpl. f_equal. apply IH. by apply take_prefix_tails.
Qed.
End MergePrefix.

Section LimitPages.
Context {T X W : Type}.
Variable id : T → Z.
Variable function : X → Z → W → result (list T) * W.

Lemma drains_iter_pages n (self : IDPagintor X) (env : Env W) pages self' env' :
  next_pages id function n self env = Some (Ok pages, self', env') →
  ∀ buf, drains (_iter_pull id function) (mkIter buf self env)
           (buf ++ concat pages) (mkIter [] self' env').
Proof.
  revert self env pages. induction n as [|n IH]; intros self env pages; [done|].
  simpl. intros Hp buf. induction buf as [|x buf IHbuf].
  - destruct (exhausted self) eqn:Hex.
    + injection Hp as <- <- <-. apply drains_stop. unfold _iter_pull. simpl.
      by rewrite Hex.
    + destruct (next_page id function self env) as [[[data|e] self1] env1] eqn:Hn;
        [|done].
      destruct (next_pages id function n self1 env1) as [[[[ps|e] self2] env2]|] eqn:Hps;
        [|done..].
      injection Hp as <- <- <-.
      eapply drains_tau; [unfold _iter_pull; simpl; by rewrite Hex, Hn|].
      simpl. by apply IH.
  - eapply drains_yield; [|exact IHbuf]. done.
Qed.

(** X7: under a limit [L] of at least one, [flatten] returns the first [L]
    items of the concatenation of the pages that calling [next_page] until
    exhaustion returns. *)
Theorem flatten_limit_pages n (self : IDPagintor X) (env : Env W) pages self' env' L :
  next_pages id function n self env = Some (Ok pages, self', env') →
  limit self = Some L → 1 ≤ L →
  ∃ N, ∀ fuel, (N ≤ fuel)%nat →
    fst <$> flatten id function fuel self env
    = Some (Ok (take (Z.to_nat L) (concat pages))).
Proof.
  intros Hp HL H1.
  apply (flatten_limit_prefix id function self env (concat pages)
           (mkIter [] self' env') L); [|done..].
  apply (drains_iter_pages n self env pages self' env' Hp []).
Qed.
End LimitPages.

Section MergedLimits.
Context {T X XM W C : Type}.
Variable id : T → Z.
Variable function : X → Z → W → result (list T) * W.
Variable key : T → Z.
Variable prefetch : IDPagintor XM → C.
Variable earliest : list (nat * PyExc) → nat.

#[local] Abbreviation child_flatten' fuel :=
  (λ c : IDPagintor X * Env W, flatten id function fuel c.1 c.2).

Lemma children_limited (children : list (IDPagintor X * Env W)) L pagess :
  1 ≤ L →
  Forall2 (λ c pages,
             limit c.1 = Some L ∧
             ∃ n self' env',
               next_pages id function n c.1 c.2 = Some (Ok pages, self', env'))
    children pagess →
  ∃ N, ∀ fuel, (N ≤ fuel)%nat →
    Forall2 (λ c l, ∃ st, child_flatten' fuel c = Some (Ok l, st))
      children (take (Z.to_nat L) <$> (@concat T <$> pagess)).
Proof.
  intros H1.
  induction 1 as [|c pages children pagess (HL & n & self' & env' & Hp) _ [N IH]].
  - exists O. by constructor.
  - destruct (flatten_limit id function c.1 c.2 (concat pages) (mkIter [] self' env'))
      as [N1 HN1].
    { apply (drains_iter_pages id function n c.1 c.2 pages self' env' Hp []). }
    { intros L' HL'. rewrite HL in HL'. injection HL' as <-. lia. }
    exists (N1 `max` N)%nat. intros fuel Hfuel. rewrite !fmap_cons. constructor.
    + destruct (HN1 fuel) as [st Hst]; [lia|]. exists st.
      by rewrite Hst, HL, aislice_cut_take.
    + apply IH. lia.
Qed.

(** X8: the children of a merged paginator carry its limit.  Under a limit
    [L] of at least one, eager [flatten] returns the first [L] items of the
    merge of all the items of all the children: that every child stops
    after [L] items of its own loses nothing. *)
Theorem flatten_eager_child_limits (m : Merged XM X W) L pagess :
  limit (merged_self m) = Some L → 1 ≤ L →
  Forall2 (λ c pages,
             limit c.1 = Some L ∧
             ∃ n self' env',
               next_pages id function n c.1 c.2 = Some (Ok pages, self', env'))
    (_paginators m) pagess →
  ∃ N, ∀ fuel (tasks : list C), (N ≤ fuel)%nat →
    ∃ m', (merged_flatten id function key prefetch earliest false fuel m tasks).1
          = Some (Ok (take (Z.to_nat L) (heapq_merge key (@concat T <$> pagess))), m').
Proof.
  intros HL H1 Hch.
  destruct (children_limited _ L pagess H1 Hch) as [N HN].
  exists N. intros fuel tasks Hfuel. specialize (HN fuel Hfuel).
  destruct (eager_children id function _ _ _ HN) as [Hrs _].
  eexists. unfold merged_flatten. rewrite andb_false_r. simpl.
  unfold flatten_eager. rewrite (gather_ok earliest _ _ Hrs), HL. unfold slice_to.
  assert (0 <= L) as H0 by lia. rewrite (proj2 (Z.leb_le 0 L) H0).
  do 3 f_equal. apply heapq_merge_prefix.
  clear. induction (@concat T <$> pagess) as [|l ls IH]; simpl; constructor; [|done].
  rewrite take_take. f_equal. lia.
Qed.

(** X9: under a limit [L] of at least one, lazy and eager [flatten] return
    the same list, the first [L] items of the merge of the lists of the
    children, with [amerge] as section 4.2 of the specification has it. *)
Theorem flatten_lazy_eager_agree_limit (m : Merged XM X W) L lists :
  limit (merged_self m) = Some L → 1 ≤ L →
  Forall2 (λ c l, ∃ n st, child_flatten' n c = Some (Ok l, st))
    (_paginators m) lists →
  ∃ N, ∀ fuel (tasks : list C), (N ≤ fuel)%nat →
    ∃ m1 m2,
      (merged_flatten id function key prefetch earliest true fuel m tasks).1
        = Some (Ok (take (Z.to_nat L) (heapq_merge key lists)), m1) ∧
      (merged_flatten id function key prefetch earliest false fuel m tasks).1
        = Some (Ok (take (Z.to_nat L) (heapq_merge key lists)), m2).
Proof.
  intros HL H1 Hc.
  destruct (children_enough_fuel id function _ _ Hc) as [N1 Heager].
  destruct (amerge_drains (__aiter___pull id function) key
              (length (concat lists)) _ lists eq_refl
              (children_slots id function _ _ Hc)) as [st Hmerge].
  destruct (aislice_drains _ (Some L) _ _ _ Hmerge) with
    (last := @None Z) (i := 1) as [st' Hsliced]; [simpl; lia|by left|].
  rewrite aislice_cut_take in Hsliced by done.
  apply drains_collect in Hsliced as [N2 Hlazy].
  exists (N1 `max` N2)%nat. intros fuel tasks Hfuel.
  unfold merged_flatten. rewrite HL.
  rewrite bool_decide_eq_true_2 by done. simpl. eexists _, _. split.
  - unfold flatten_lazy, merged_iter_pull, merged_iter, aislice, aenumerate.
    rewrite HL. by rewrite (Hlazy fuel) by lia.
  - destruct (eager_children id function _ _ _ (Heager fuel ltac:(lia))) as [Hrs _].
    unfold flatten_eager. rewrite (gather_ok earliest _ _ Hrs), HL. unfold slice_to.
    assert (0 <= L) as H0 by lia. by rewrite (proj2 (Z.leb_le 0 L) H0).
Qed.
End MergedLimits.

(** ** The items of a page *)

Lemma rmap_list_raise {A B} (f : A → result B) (l : list A) a e :
  a ∈ l → f a = Raise e → ∃ e', rmap_list f l = Raise e'.
Proof.
  intros Ha Hf. induction l as [|b l IH]; [by apply not_elem_of_nil in Ha|].
  simpl. apply elem_of_cons in Ha as [<-|Ha].
  - rewrite Hf. simpl. eauto.
  - destruct (f b); simpl; [|eauto].
    destruct (IH Ha) as [e' ->]. simpl. eauto.
Qed.

Section TransactionFields.
Variable int_validator : pyval → option Z.
Variable str_validator : pyval → option string.
Variable datetime_validator : pyval → option Z.

#[local] Abbreviation validate :=
  (validate_transaction int_validator str_validator datetime_validator).
#[local] Abbreviation make :=
  (make_transaction int_validator str_validator datetime_validator).

(** What a validated transaction holds, field by field. *)
Lemma validate_transaction_inv permitted (kw : gmap string pyval) t :
  validate permitted kw = Some t →
  (∃ k, kw !! "kind" = Some (VStr k) ∧ k ∈ permitted ∧ Transaction.kind t = k) ∧
  kw !! "id" ≫= int_validator = Some (Transaction.id t) ∧
  kw !! "uid" ≫= int_validator = Some (Transaction.uid t) ∧
  kw !! "time" ≫= datetime_validator = Some (Transaction.time t) ∧
  kw !! "add_num" ≫= int_validator = Some (Transaction.amount t) ∧
  kw !! "reason" ≫= int_validator = Some (Transaction.reason_id t) ∧
  field_default str_validator kw "reason_str" "" = Some (Transaction.reason t).
Proof.
  unfold validate_transaction, field. intros H.
  destruct (kw !! "kind") as [v|]; [|done]. simpl in H.
  destruct (literal_validator permitted v) as [k|] eqn:Hlit; [|done].
  simpl in H.
  repeat match type of H with
         | context [?o ≫= _] =>
             let x := fresh in destruct o as [x|] eqn:?; simpl in H; [|done]
         end.
  injection H as <-. simpl. repeat split; try done.
  destruct v as [|s|]; try done. simpl in Hlit.
  destruct (bool_decide (s ∈ permitted)) eqn:Hin; [|done].
  apply bool_decide_eq_true in Hin. injection Hlit as <-. eauto.
Qed.

(** The keyword arguments the loop of [Transactions.function] passes to
    the model, and the model it passes them to. *)
Lemma make_transaction_inv (self : TransactionsExt) reasons trans x :
  make self reasons trans = Ok x →
  ∃ r, trans !! "reason" = Some r ∧ trans !! "reason_str" = None ∧
       trans !! "kind" = None ∧
       let kw := <["kind" := VStr (tr_kind self)]>
                   (<["reason_str" := VStr (default "" (reasons !! r))]> trans) in
       (is_Some (trans !! "name") ∧
        ∃ base name rarity,
          validate ["artifact"; "weapon"] kw = Some base ∧
          kw !! "name" ≫= str_validator = Some name ∧
          kw !! "rank" ≫= int_validator = Some rarity ∧
          x = IsItemTransaction (ItemTransaction.mk base name rarity)) ∨
       (trans !! "name" = None ∧
        ∃ t, validate ["primogem"; "crystal"; "resin"] kw = Some t ∧
             x = IsTransaction t).
Proof.
  unfold make_transaction.
  destruct (trans !! "reason") as [r|] eqn:Hr; [|done].
  unfold kwargs_add.
  destruct (trans !! "reason_str") eqn:Hrs; [done|]. simpl.
  rewrite lookup_insert_ne by done.
  destruct (trans !! "kind") eqn:Hk; [done|]. simpl.
  intros H. exists r. repeat split; try done.
  destruct (bool_decide (is_Some (trans !! "name"))) eqn:Hname.
  - apply bool_decide_eq_true in Hname. left. split; [done|].
    unfold ItemTransaction_init, field in H.
    destruct (validate_transaction _ _ _ _ _) as [t|]; [|done]. simpl in H.
    destruct (_ ≫= str_validator) as [n|]; [|done]. simpl in H.
    destruct (_ ≫= int_validator) as [rk|]; [|done]. simpl in H.
    injection H as <-. by exists t, n, rk.
  - apply bool_decide_eq_false in Hname. right.
    split; [by destruct (trans !! "name") as [?|]; [destruct Hname; eauto|]|].
    unfold Transaction_init in H.
    destruct (validate_transaction _ _ _ _ _) as [t|]; [|done]. simpl in H.
    injection H as <-. by exists t.
Qed.

(** An item comes out of the loop of [Transactions.function] only when the
    kind of the paginator is one the model allows. *)
Lemma make_transaction_kind_permitted (self : TransactionsExt) reasons trans x :
  make self reasons trans = Ok x →
  (is_Some (trans !! "name") → tr_kind self ∈ ["artifact"; "weapon"]) ∧
  (trans !! "name" = None → tr_kind self ∈ ["primogem"; "crystal"; "resin"]).
Proof.
  intros H. apply make_transaction_inv in H as (r & _ & _ & _ & H). simpl in H.
  assert (Hkind : ∀ permitted t,
    validate permitted
      (<["kind" := VStr (tr_kind self)]>
         (<["reason_str" := VStr (default "" (reasons !! r))]> trans)) = Some t →
    tr_kind self ∈ permitted).
  { intros permitted t Ht.
    apply validate_transaction_inv in Ht as [(k & Hk & Hin & _) _].
    rewrite lookup_insert_eq in Hk. by injection Hk as ->. }
  destruct H as [[Hname (base & n & rk & Hv & _)] | [Hname (t & Hv & _)]].
  - split; [intros _; by eapply Hkind|]. intros Hnone. rewrite Hnone in Hname.
    by destruct Hname.
  - split; [|intros _; by eapply Hkind]. intros [? Hsome]. by rewrite Hname in Hsome.
Qed.

(** The fields of an item are read from the raw record under the aliases
    the models declare. *)
Lemma make_transaction_fields (self : TransactionsExt) reasons trans x :
  make self reasons trans = Ok x →
  let t := as_transaction x in
  trans !! "id" ≫= int_validator = Some (Transaction.id t) ∧
  trans !! "uid" ≫= int_validator = Some (Transaction.uid t) ∧
  trans !! "time" ≫= datetime_validator = Some (Transaction.time t) ∧
  trans !! "add_num" ≫= int_validator = Some (Transaction.amount t) ∧
  trans !! "reason" ≫= int_validator = Some (Transaction.reason_id t) ∧
  match x with
  | IsTransaction _ => trans !! "name" = None
  | IsItemTransaction it =>
      trans !! "name" ≫= str_validator = Some (ItemTransaction.name it) ∧
      trans !! "rank" ≫= int_validator = Some (ItemTransaction.rarity it)
  end.
Proof.
  intros H. apply make_transaction_inv in H as (r & _ & _ & _ & H). simpl in H.
  assert (Hraw : ∀ k, k ≠ "kind" → k ≠ "reason_str" →
    (<["kind" := VStr (tr_kind self)]>
       (<["reason_str" := VStr (default "" (reasons !! r))]> trans)) !! k
    = trans !! k).
  { intros k H1 H2. by rewrite !lookup_insert_ne by done. }
  destruct H as [[Hname (base & n & rk & Hv & Hn & Hrk & ->)]
                | [Hname (t & Hv & ->)]]; simpl;
    apply validate_transaction_inv in Hv as (_ & Hid & Huid & Htime & Hamt & Hrid & _);
    rewrite Hraw in Hid, Huid, Htime, Hamt, Hrid by done.
  - rewrite Hraw in Hn, Hrk by done. done.
  - done.
Qed.
End TransactionFields.

Section TransactionsFurther.
Context {CW : Type}.
Variable client : GenshinClient CW.
Variable int_validator : pyval → option Z.
Variable str_validator : pyval → option string.
Variable datetime_validator : pyval → option Z.

#[local] Abbreviation Tfunction :=
  (Transactions_function client int_validator str_validator datetime_validator).
#[local] Abbreviation Tmake :=
  (make_transaction int_validator str_validator datetime_validator).
#[local] Abbreviation reasons_request self :=
  (_get_transaction_reasons client (str_or (tr_lang self) (client_lang client))).
#[local] Abbreviation page_request self cursor :=
  (request_transaction client ("get" +:+ capitalize (tr_kind self) +:+ "Log")
     (tr_lang self) (tr_authkey self) cursor 20).
#[local] Abbreviation requests self cursor :=
  [Call__get_transaction_reasons (str_or (tr_lang self) (client_lang client));
   Call_request_transaction ("get" +:+ capitalize (tr_kind self) +:+ "Log")
     (tr_lang self) (tr_authkey self) cursor 20].

(** X10: the items of a page are all of one model, and of the model the
    kind of the paginator allows: when [Transactions.function] returns, its
    items are all [ItemTransaction] and the kind is [artifact] or [weapon],
    or all plain [Transaction] and the kind is [primogem], [crystal] or
    [resin], unless the page is empty. *)
Theorem Transactions_function_homogeneous (self : TransactionsExt) cursor
    (w w' : ClientWorld CW) items :
  Tfunction self cursor w = (Ok items, w') →
  items = [] ∨
  (Forall (λ x, is_item x = true) items ∧ tr_kind self ∈ ["artifact"; "weapon"]) ∨
  (Forall (λ x, is_item x = false) items ∧
   tr_kind self ∈ ["primogem"; "crystal"; "resin"]).
Proof.
  rewrite Transactions_function_unfold.
  destruct (page_request self cursor (cw w)) as [[data|e] s1]; [|done].
  destruct (reasons_request self s1) as [[reasons|e] s2]; [|done].
  destruct (data !! "list") as [raws|]; [|done].
  intros [= Hmap _]. apply rmap_list_Forall2 in Hmap.
  assert (Hclass : ∀ x, x ∈ items →
    if is_item x then tr_kind self ∈ ["artifact"; "weapon"]
    else tr_kind self ∈ ["primogem"; "crystal"; "resin"]).
  { intros x Hx. apply list_elem_of_lookup in Hx as [i Hi].
    destruct (Forall2_lookup_r _ _ _ _ _ Hmap Hi) as (trans & _ & Hmk).
    pose proof (make_transaction_kind_permitted _ _ _ _ _ _ _ Hmk) as [Hitem Hplain].
    apply make_transaction_inv in Hmk as (r & _ & _ & _ & Hx).
    destruct Hx as [[Hname (? & ? & ? & _ & _ & _ & ->)] | [Hname (? & _ & ->)]];
      simpl; auto. }
  assert (Hexcl : tr_kind self ∈ ["artifact"; "weapon"] →
                  tr_kind self ∈ ["primogem"; "crystal"; "resin"] → False).
  { intros H1 H2.
    apply elem_of_cons in H1 as [H1|H1];
      [|apply elem_of_cons in H1 as [H1|H1]; [|by apply not_elem_of_nil in H1]];
      rewrite H1 in H2;
      repeat (apply elem_of_cons in H2 as [H2|H2]; [done|]);
      by apply not_elem_of_nil in H2. }
  destruct items as [|x items]; [by left|]. right.
  pose proof (Hclass x ltac:(by left)) as Hx.
  destruct (is_item x) eqn:Hix; [left|right]; (split; [|done]);
    apply Forall_forall; intros y Hy; specialize (Hclass y Hy);
    destruct (is_item y); try done; by destruct Hexcl.
Qed.

(** X11: when [Transactions.function] returns, the page was requested
    first and the table of reasons awaited after it, and the fields of the
    items are read from the raw records of that page under the aliases the
    models declare, each through the validator of its type: [id], [uid]
    and [time] under their own names, [amount] under ["add_num"],
    [reason_id] under ["reason"], and for an [ItemTransaction] [name] under
    ["name"] and [rarity] under ["rank"]; the page has one item for every
    raw record, in the order of the records. *)
Theorem Transactions_function_fields (self : TransactionsExt) cursor
    (w w' : ClientWorld CW) items :
  Tfunction self cursor w = (Ok items, w') →
  ∃ data s1 reasons s2 raws,
    page_request self cursor (cw w) = (Ok data, s1) ∧
    reasons_request self s1 = (Ok reasons, s2) ∧
    w' = mkWorld s2 (calls w ++ requests self cursor) ∧
    data !! "list" = Some raws ∧
    length items = length raws ∧
    Forall2 (λ (trans : gmap string pyval) x,
               let t := as_transaction x in
               trans !! "id" ≫= int_validator = Some (Transaction.id t) ∧
               trans !! "uid" ≫= int_validator = Some (Transaction.uid t) ∧
               trans !! "time" ≫= datetime_validator = Some (Transaction.time t) ∧
               trans !! "add_num" ≫= int_validator = Some (Transaction.amount t) ∧
               trans !! "reason" ≫= int_validator = Some (Transaction.reason_id t) ∧
               match x with
               | IsTransaction _ => trans !! "name" = None
               | IsItemTransaction it =>
                   trans !! "name" ≫= str_validator = Some (ItemTransaction.name it) ∧
                   trans !! "rank" ≫= int_validator = Some (ItemTransaction.rarity it)
               end)
      raws items.
Proof.
  rewrite Transactions_function_unfold.
  destruct (page_request self cursor (cw w)) as [[data|e] s1] eqn:Hd; [|done].
  destruct (reasons_request self s1) as [[reasons|e] s2] eqn:Hr; [|done].
  destruct (data !! "list") as [raws|] eqn:Hlist; [|done].
  intros [= Hmap <-]. apply rmap_list_Forall2 in Hmap.
  exists data, s1, reasons, s2, raws.
  split; [done|]. split; [done|]. split; [done|]. split; [done|]. split.
  - symmetry. by eapply Forall2_length.
  - eapply Forall2_impl; [exact Hmap|]. intros trans x Hmk.
    by apply make_transaction_fields in Hmk.
Qed.

(** X12: a page is converted wholly or not at all.  When the page, which
    is requested first, and the table of reasons, awaited after it, are
    returned and a raw record of the page has no ["reason"], or has a
    ["kind"] or a ["reason_str"] of its own, [Transactions.function]
    raises, whatever the other records are: a [KeyError] or a [TypeError]
    when that record is the first of the page. *)
Theorem Transactions_function_bad_record (self : TransactionsExt) cursor
    (w : ClientWorld CW) data s1 reasons s2 raws trans :
  page_request self cursor (cw w) = (Ok data, s1) →
  reasons_request self s1 = (Ok reasons, s2) →
  data !! "list" = Some raws →
  trans ∈ raws →
  trans !! "reason" = None ∨ is_Some (trans !! "kind") ∨
    is_Some (trans !! "reason_str") →
  (∃ e, (Tfunction self cursor w).1 = Raise e) ∧
  (head raws = Some trans →
   ∃ e, (Tfunction self cursor w).1 = Raise e ∧
        exc_type e = match trans !! "reason" with
                     | Some _ => "TypeError"
                     | None => "KeyError"
                     end).
Proof.
  intros Hd Hr Hlist Hin Hbad.
  rewrite Transactions_function_unfold, Hd, Hr, Hlist. simpl.
  assert (Hmk : ∃ e, Tmake self reasons trans = Raise e ∧
                     exc_type e = match trans !! "reason" with
                                  | Some _ => "TypeError"
                                  | None => "KeyError"
                                  end).
  { unfold make_transaction, kwargs_add.
    destruct (trans !! "reason") as [r|] eqn:Hreason; [|eauto].
    destruct Hbad as [?|[[v Hk]|[v Hrs]]]; [done|..].
    - destruct (trans !! "reason_str"); simpl; [eauto|].
      rewrite lookup_insert_ne, Hk by done. simpl. eauto.
    - rewrite Hrs. simpl. eauto. }
  destruct Hmk as (e & Hmk & Hty). split.
  - by eapply rmap_list_raise.
  - intros Hhead. destruct raws as [|t0 raws]; [done|].
    injection Hhead as ->. simpl. rewrite Hmk. simpl. eauto.
Qed.

End TransactionsFurther.

(** ** The wishes of a page *)

Section WishHistoryFurther.
Context {CW Wish : Type}.
Variable client : GenshinClient CW.
Variable Wish_init : gmap string pyval → result Wish.

#[local] Abbreviation Wfunction := (WishHistory_function client Wish_init).
#[local] Abbreviation gacha_request self cursor :=
  (request_gacha_info client "getGachaLog" (wh_lang self) (wh_authkey self)
     (wh_banner_type self) page_size cursor).
#[local] Abbreviation gacha_call self cursor :=
  (Call_request_gacha_info "getGachaLog" (wh_lang self) (wh_authkey self)
     (wh_banner_type self) page_size cursor).
#[local] Abbreviation banner_request self :=
  (get_banner_types client (wh_lang self) (wh_authkey self)).
#[local] Abbreviation banner_call self :=
  (Call_get_banner_types (wh_lang self) (wh_authkey self)).
#[local] Abbreviation make_wish name :=
  (λ i : gmap string pyval,
     rbind (kwargs_add i "banner_name" (VStr name)) Wish_init).

(** [WishHistory.function] in terms of its two requests. *)
Lemma WishHistory_function_unfold (self : WishHistoryExt) cursor
    (w : ClientWorld CW) :
  Wfunction self cursor w
  = let '(rd, s1) := gacha_request self cursor (cw w) in
    match rd with
    | Raise e => (Raise e, mkWorld s1 (calls w ++ [gacha_call self cursor]))
    | Ok data =>
        let '(rb, s2) := banner_request self s1 in
        let w' := mkWorld s2 (calls w ++ [gacha_call self cursor; banner_call self]) in
        match rb with
        | Raise e => (Raise e, w')
        | Ok names =>
            match names !! wh_banner_type self with
            | None => (Raise (mkExc "KeyError" (pretty (wh_banner_type self))), w')
            | Some name =>
                match data !! "list" with
                | None => (Raise (mkExc "KeyError" "list"), w')
                | Some raws => (rmap_list (make_wish name) raws, w')
                end
            end
        end
    end.
Proof.
  unfold WishHistory_function, _get_banner_name, bind, call, lift, ret, getitem_list.
  destruct (request_gacha_info client _ _ _ _ _ _ (cw w)) as [[data|e] s1]; simpl;
    [|done].
  destruct (get_banner_types client _ _ s1) as [[names|e] s2]; simpl;
    rewrite <- app_assoc; simpl; [|done].
  destruct (names !! wh_banner_type self); simpl; [|done].
  by destruct (data !! "list").
Qed.

(** X14: when [WishHistory.function] returns, it has requested the page
    with the banner type, the page size 20 and the cursor, and then the
    names of the banners; the page has one wish for every raw record, in
    their order, each made from the record and the name of the banner of
    the paginator, and no record had a ["banner_name"] of its own. *)
Theorem WishHistory_function_wishes (self : WishHistoryExt) cursor
    (w w' : ClientWorld CW) wishes :
  Wfunction self cursor w = (Ok wishes, w') →
  ∃ data s1 names s2 name raws,
    gacha_request self cursor (cw w) = (Ok data, s1) ∧
    banner_request self s1 = (Ok names, s2) ∧
    names !! wh_banner_type self = Some name ∧
    data !! "list" = Some raws ∧
    w' = mkWorld s2 (calls w ++ [gacha_call self cursor; banner_call self]) ∧
    Forall2 (λ raw wish,
               raw !! "banner_name" = None ∧
               Wish_init (<["banner_name" := VStr name]> raw) = Ok wish)
      raws wishes.
Proof.
  rewrite WishHistory_function_unfold.
  destruct (gacha_request self cursor (cw w)) as [[data|e] s1] eqn:Hd; [|done].
  destruct (banner_request self s1) as [[names|e] s2] eqn:Hb; [|done].
  destruct (names !! wh_banner_type self) as [name|] eqn:Hname; [|done].
  destruct (data !! "list") as [raws|] eqn:Hlist; [|done].
  intros [= Hmap <-]. apply rmap_list_Forall2 in Hmap.
  exists data, s1, names, s2, name, raws.
  do 5 (split; [done|]).
  eapply Forall2_impl; [exact Hmap|]. intros raw wish. unfold kwargs_add.
  destruct (raw !! "banner_name"); [done|]. simpl. done.
Qed.

(** X15: when the request for the page raises, [WishHistory.function]
    raises that exception and does not ask for the names of the banners;
    when the names have no entry for the banner type of the paginator, it
    raises a [KeyError] that carries the banner type, whatever the page
    holds. *)
Theorem WishHistory_function_fails (self : WishHistoryExt) cursor
    (w : ClientWorld CW) rd s1 :
  gacha_request self cursor (cw w) = (rd, s1) →
  (∀ e, rd = Raise e →
        Wfunction self cursor w
        = (Raise e, mkWorld s1 (calls w ++ [gacha_call self cursor]))) ∧
  (∀ data names s2,
     rd = Ok data → banner_request self s1 = (Ok names, s2) →
     names !! wh_banner_type self = None →
     Wfunction self cursor w
     = (Raise (mkExc "KeyError" (pretty (wh_banner_type self))),
        mkWorld s2 (calls w ++ [gacha_call self cursor; banner_call self]))).
Proof.
  intros Hd. rewrite WishHistory_function_unfold, Hd. split.
  - by intros e ->.
  - intros data names s2 -> Hb Hnone. by rewrite Hb, Hnone.
Qed.
End WishHistoryFurther.

(** ** A merged paginator after [flatten] *)

Section MergedAgain.
Context {T X XM W C : Type}.
Variable id : T → Z.
Variable function : X → Z → W → result (list T) * W.
Variable key : T → Z.
Variable prefetch : IDPagintor XM → C.
Variable earliest : list (nat * PyExc) → nat.

#[local] Abbreviation child_flatten'' fuel :=
  (λ c : IDPagintor X * Env W, flatten id function fuel c.1 c.2).

Lemma gather_lists_inv {St} (rs : list (option (result (list T) * St))) lists :
  gather_lists rs = Some lists →
  Forall (λ r, ∃ l st, r = Some (Ok l, st)) rs.
Proof.
  revert lists. induction rs as [|[[[l|e] st]|] rs IH]; intros lists; simpl;
    [constructor| |done..].
  destruct (gather_lists rs) as [ls|] eqn:Hg; [|done]. intros _.
  constructor; eauto.
Qed.

Lemma heapq_merge_empties (lists : list (list T)) :
  Forall (λ l, l = []) lists → heapq_merge key lists = [].
Proof.
  intros H. unfold heapq_merge.
  assert (concat lists = []) as ->; [|done].
  induction H as [|l lists -> _ IH]; [done|]. done.
Qed.

Lemma children_exhausted (children : list (IDPagintor X * Env W)) fuel :
  Forall (λ c, limit c.1 = None) children →
  Forall (λ r, ∃ l st, r = Some (Ok l, st)) (child_flatten'' fuel <$> children) →
  Forall (λ c, exhausted c.1 = true)
    (zip_with (λ c r, match r with
                      | Some (_, st) => child_of_state st
                      | None => c
                      end) children (child_flatten'' fuel <$> children)).
Proof.
  induction 1 as [|c children Hlim _ IH]; [constructor|].
  rewrite fmap_cons. intros Hrs. apply Forall_cons in Hrs as [(l & st & Hc) Hrs].
  simpl. rewrite Hc. constructor; [|by apply IH]. simpl.
  destruct (unlimited_run id function fuel (limit c.1) None 1 [] c.1 c.2 l st)
    as (n & pages & _ & _ & Hex); [by rewrite Hlim|exact Hc|]. done.
Qed.

(** X16: a merged paginator without limit does not start again: after its
    [flatten] has returned, every child is exhausted, and a further
    [flatten], lazy or not, returns the empty list. *)
Theorem merged_flatten_not_restartable (m : Merged XM X W) lazy lazy' fuel
    (tasks : list C) O m' :
  limit (merged_self m) = None →
  Forall (λ c, limit c.1 = None) (_paginators m) →
  (merged_flatten id function key prefetch earliest lazy fuel m tasks).1 = Some (Ok O, m') →
  Forall (λ c, exhausted c.1 = true) (_paginators m') ∧
  ∀ fuel' (tasks' : list C),
    ∃ m'', (merged_flatten id function key prefetch earliest lazy' (Datatypes.S fuel') m'
              tasks').1 = Some (Ok [], m'').
Proof.
  intros Hlim Hch. unfold merged_flatten at 1. rewrite Hlim.
  rewrite bool_decide_eq_false_2 by (by intros []). simpl.
  unfold flatten_eager, gather.
  destruct (gather_raised _); [done|].
  destruct (gather_lists _) as [lists|] eqn:Hg; [|done]. simpl.
  intros [= _ <-]. apply gather_lists_inv in Hg.
  pose proof (children_exhausted _ fuel Hch Hg) as Hex.
  split; [exact Hex|]. intros fuel' tasks'.
  unfold merged_flatten. simpl. rewrite Hlim.
  rewrite bool_decide_eq_false_2 by (by intros []). simpl.
  set (children := zip_with _ _ _) in *.
  assert (Hrs : Forall2 (λ r l, ∃ st, r = Some (Ok l, st))
                  (child_flatten'' (Datatypes.S fuel') <$> children)
                  (replicate (length children) [])).
  { clear -Hex. induction Hex as [|c cs Hc _ IH]; [constructor|].
    rewrite fmap_cons. simpl. constructor; [|exact IH].
    eexists. by apply flatten_exhausted. }
  eexists. unfold flatten_eager. simpl. fold children.
  rewrite (gather_ok earliest _ _ Hrs), Hlim. simpl.
  rewrite heapq_merge_empties; [done|].
  apply Forall_forall. intros l Hl. by apply elem_of_replicate in Hl as [-> _].
Qed.
End MergedAgain.

(** ** What eager [flatten] drains *)

Section MergedDrains.
Context {T X XM W C : Type}.
Variable id : T → Z.
Variable function : X → Z → W → result (list T) * W.
Variable key : T → Z.
Variable prefetch : IDPagintor XM → C.
Variable earliest : list (nat * PyExc) → nat.

#[local] Abbreviation child_list fuel :=
  (λ c : IDPagintor X * Env W, flatten id function fuel c.1 c.2).


End MergedDrains.

(** ** Enumerating *)

Section AenumerateFacts.
Context {A S : Type}.
Variable pull : S → step A S.

(** X17: [aenumerate] yields the items of the generator it wraps, in their
    order, each with its index, counted from [start], and stops when the
    generator stops. *)
Theorem aenumerate_indices (start : Z) s l s' :
  drains pull s l s' →
  drains (aenumerate_pull pull) (aenumerate start s)
    (imap (λ k x, (start + Z.of_nat k, x)) l)
    (start + Z.of_nat (length l), s').
Proof.
  intros Hd. revert start. unfold aenumerate.
  induction Hd as [s s' Hp|s s1 l s2 Hp _ IH|s a s1 l s2 Hp _ IH]; intros start.
  - simpl. rewrite Z.add_0_r. apply drains_stop. simpl. by rewrite Hp.
  - eapply drains_tau; [|apply IH]. simpl. by rewrite Hp.
  - simpl. rewrite Z.add_0_r.
    eapply drains_yield; [simpl; by rewrite Hp|].
    specialize (IH (start + 1)).
    replace (start + Z.of_nat (Datatypes.S (length l)))
      with (start + 1 + Z.of_nat (length l)) by lia.
    erewrite imap_ext; [exact IH|]. intros k x _. simpl. f_equal. lia.
Qed.
End AenumerateFacts.

(** ** The further theorems at concrete inputs *)

(** Close a case a computation rules out. *)
Ltac ruled_out H := exfalso; revert H; vm_compute; intros H; discriminate H.

Lemma flatten_concat_pages_witness :
  let self := Fixture.paginator None 0%nat in
  let env := Fixture.outside [reverse (seqZ 1 22)] in
  limit self = None ∧
  ∃ O st n pages,
    flatten Fixture.ident Fixture.serve 30 self env = Some (Ok O, st) ∧
    next_pages Fixture.ident Fixture.serve n self env
      = Some (Ok pages, state_self st, state_env st) ∧
    O = concat pages.
Proof.
  intros self env. split; [reflexivity|].
  destruct (flatten Fixture.ident Fixture.serve 30 self env)
    as [[[O|e] st]|] eqn:Hf; [|ruled_out Hf..].
  destruct (proj1 (flatten_concat_pages Fixture.ident Fixture.serve self env eq_refl)
              30%nat O st Hf) as (n & pages & Hp & HO).
  exists O, st, n, pages. split; [reflexivity|]. split; [exact Hp|exact HO].
Defined.

Lemma flatten_not_restartable_witness :
  let self := Fixture.paginator None 0%nat in
  let env := Fixture.outside [[5; 3; 1]] in
  limit self = None ∧
  ∃ O st,
    flatten Fixture.ident Fixture.serve 9 self env = Some (Ok O, st) ∧
    exhausted (state_self st) = true.
Proof.
  intros self env. split; [reflexivity|].
  destruct (flatten Fixture.ident Fixture.serve 9 self env)
    as [[[O|e] st]|] eqn:Hf; [|ruled_out Hf..].
  exists O, st. split; [reflexivity|].
  apply (flatten_not_restartable Fixture.ident Fixture.serve self env 9%nat O st
           eq_refl Hf).
Defined.

Lemma flatten_fetch_count_witness :
  let self := Fixture.paginator None 0%nat in
  let env := Fixture.outside [reverse (seqZ 1 22)] in
  limit self = None ∧
  ∃ O st,
    flatten Fixture.ident Fixture.serve 30 self env = Some (Ok O, st) ∧
    page_size * (Z.of_nat (length (fetches (state_env st)))
                 - Z.of_nat (length (fetches env)) - 1)
    ≤ Z.of_nat (length O).
Proof.
  intros self env. split; [reflexivity|].
  destruct (flatten Fixture.ident Fixture.serve 30 self env)
    as [[[O|e] st]|] eqn:Hf; [|ruled_out Hf..].
  exists O, st. split; [reflexivity|].
  apply (flatten_fetch_count Fixture.ident Fixture.serve self env 30%nat O st
           eq_refl Hf).
Defined.

Lemma flatten_raise_resumable_witness :
  let self := Fixture.paginator None 0%nat in
  let env := Fixture.outside [reverse (seqZ 1 22)] in
  ∃ e st c,
    flatten Fixture.ident Fixture.serve_then_fail 30 self env = Some (Raise e, st) ∧
    end_id (state_self st) = Some c ∧ c = 3 ∧ c ≠ default 0 (end_id self) ∧
    last (fetches (state_env st)) = Some c ∧
    fetches (state_env st) = [0; 3].
Proof.
  intros self env.
  destruct (flatten Fixture.ident Fixture.serve_then_fail 30 self env)
    as [[[O|e] st]|] eqn:Hf; [ruled_out Hf| |ruled_out Hf].
  destruct (flatten_raise_resumable Fixture.ident Fixture.serve_then_fail self env
              30%nat e st Hf) as (c & w & Hc & _ & _ & Hlast).
  assert (Hst : end_id (state_self st) = Some 3 ∧
                fetches (state_env st) = [0; 3]).
  { revert Hf. vm_compute. intros [= _ <-]. split; reflexivity. }
  destruct Hst as [Hend Hlog].
  assert (c = 3) as Hc3 by (rewrite Hend in Hc; by injection Hc).
  exists e, st, c. split; [reflexivity|]. split; [exact Hc|].
  split; [exact Hc3|]. split; [by rewrite Hc3|]. split; [exact Hlast|exact Hlog].
Defined.

Lemma flatten_limit_bound_witness :
  let self := Fixture.paginator (Some 2) 0%nat in
  let env := Fixture.outside [[5; 3; 1]] in
  limit self = Some 2 ∧ 2 ≠ 0 ∧
  ∃ l st,
    flatten Fixture.ident Fixture.serve 9 self env = Some (Ok l, st) ∧
    Z.of_nat (length l) ≤ Z.max 1 2.
Proof.
  intros self env. split; [reflexivity|]. split; [lia|].
  destruct (flatten Fixture.ident Fixture.serve 9 self env)
    as [[[l|e] st]|] eqn:Hf; [|ruled_out Hf..].
  exists l, st. split; [reflexivity|].
  apply (flatten_limit_bound Fixture.ident Fixture.serve self env 9%nat 2 l st
           eq_refl ltac:(lia) Hf).
Defined.

Lemma flatten_fetch_bound_witness :
  let self := Fixture.paginator (Some 5) 0%nat in
  let env := Fixture.outside [reverse (seqZ 1 50)] in
  limit self = Some 5 ∧ 1 ≤ 5 ∧
  ∃ r st,
    flatten Fixture.ident Fixture.serve 30 self env = Some (r, st) ∧
    page_size * (Z.of_nat (length (fetches (state_env st)))
                 - Z.of_nat (length (fetches env)))
    < 5 + page_size.
Proof.
  intros self env. split; [reflexivity|]. split; [lia|].
  destruct (flatten Fixture.ident Fixture.serve 30 self env)
    as [[r st]|] eqn:Hf; [|ruled_out Hf].
  exists r, st. split; [reflexivity|].
  apply (flatten_fetch_bound Fixture.ident Fixture.serve self env 30%nat 5 r st
           eq_refl ltac:(lia) Hf).
Defined.

Lemma flatten_limit_pages_witness :
  let self := Fixture.paginator (Some 2) 0%nat in
  let env := Fixture.outside [[5; 3; 1]] in
  (∃ self' env',
     next_pages Fixture.ident Fixture.serve 3 self env
     = Some (Ok [[5; 3; 1]], self', env')) ∧
  limit self = Some 2 ∧ 1 ≤ 2 ∧
  ∃ N, ∀ fuel, (N ≤ fuel)%nat →
    fst <$> flatten Fixture.ident Fixture.serve fuel self env
    = Some (Ok (take (Z.to_nat 2) (concat [[5; 3; 1]]))).
Proof.
  intros self env.
  assert (H1 : ∃ self' env',
            next_pages Fixture.ident Fixture.serve 3 self env
            = Some (Ok [[5; 3; 1]], self', env')).
  { eexists _, _. lazy. reflexivity. }
  split; [exact H1|]. split; [reflexivity|]. split; [lia|].
  destruct H1 as (self' & env' & H1).
  apply (flatten_limit_pages Fixture.ident Fixture.serve 3%nat self env
           [[5; 3; 1]] self' env' 2 H1 eq_refl ltac:(lia)).
Defined.

Lemma aenumerate_indices_witness :
  let it := _iter (Fixture.paginator None 0%nat) (Fixture.outside [[5; 3]]) in
  (∃ s', drains (_iter_pull Fixture.ident Fixture.serve) it [5; 3] s') ∧
  ∃ s', drains (aenumerate_pull (_iter_pull Fixture.ident Fixture.serve))
          (aenumerate 1 it) [(1, 5); (2, 3)] s'.
Proof.
  intros it.
  assert (H1 : ∃ s', drains (_iter_pull Fixture.ident Fixture.serve) it [5; 3] s').
  { eexists. apply (collect_drains _ 5%nat). lazy. reflexivity. }
  split; [exact H1|]. destruct H1 as [s' H1].
  eexists. apply (aenumerate_indices _ 1 it [5; 3] s' H1).
Defined.

Lemma flatten_eager_child_limits_witness :
  let m := Fixture.merged (Some 2) Fixture.three_sources [0; 1; 2]%nat in
  let pagess := [[[7; 4; 1]]; [[5; 2]]; [[9; 8; 6; 3]]] in
  limit (merged_self m) = Some 2 ∧ 1 ≤ 2 ∧
  Forall2 (λ c pages,
             limit c.1 = Some 2 ∧
             ∃ n self' env',
               next_pages Fixture.ident Fixture.serve n c.1 c.2
               = Some (Ok pages, self', env'))
    (_paginators m) pagess ∧
  Forall2 (λ c l, ∃ st, flatten Fixture.ident Fixture.serve 10 c.1 c.2
                        = Some (Ok l, st))
    (_paginators m) [[7; 4]; [5; 2]; [9; 8]] ∧
  ∃ N, ∀ fuel (tasks : list unit), (N ≤ fuel)%nat →
    ∃ m', (merged_flatten Fixture.ident Fixture.serve Fixture.newest_first
             (λ _, tt) Fixture.in_order false fuel m tasks).1
          = Some (Ok [9; 8], m').
Proof.
  intros m pagess.
  assert (H3 : Forall2 (λ c pages,
                  limit c.1 = Some 2 ∧
                  ∃ n self' env',
                    next_pages Fixture.ident Fixture.serve n c.1 c.2
                    = Some (Ok pages, self', env'))
                 (_paginators m) pagess).
  { repeat (constructor;
            [split; [reflexivity|exists 3%nat; eexists _, _; lazy; reflexivity]|]).
    constructor. }
  split; [reflexivity|]. split; [lia|]. split; [exact H3|]. split.
  { repeat (constructor; [eexists; lazy; reflexivity|]). constructor. }
  apply (flatten_eager_child_limits Fixture.ident Fixture.serve Fixture.newest_first
           (λ _, tt) Fixture.in_order m 2 pagess eq_refl ltac:(lia) H3).
Defined.

Lemma flatten_lazy_eager_agree_limit_witness :
  let m := Fixture.merged (Some 4) Fixture.three_sources [0; 1; 2]%nat in
  limit (merged_self m) = Some 4 ∧ 1 ≤ 4 ∧
  Forall2 (λ c l, ∃ n st, flatten Fixture.ident Fixture.serve n c.1 c.2
                          = Some (Ok l, st))
    (_paginators m) Fixture.three_sources ∧
  ∃ N, ∀ fuel (tasks : list unit), (N ≤ fuel)%nat →
    ∃ m1 m2,
      (merged_flatten Fixture.ident Fixture.serve Fixture.newest_first
         (λ _, tt) Fixture.in_order true fuel m tasks).1
        = Some (Ok (take (Z.to_nat 4)
                      (heapq_merge Fixture.newest_first Fixture.three_sources)), m1) ∧
      (merged_flatten Fixture.ident Fixture.serve Fixture.newest_first
         (λ _, tt) Fixture.in_order false fuel m tasks).1
        = Some (Ok (take (Z.to_nat 4)
                      (heapq_merge Fixture.newest_first Fixture.three_sources)), m2).
Proof.
  intros m.
  assert (H3 : Forall2 (λ c l, ∃ n st, flatten Fixture.ident Fixture.serve n c.1 c.2
                                       = Some (Ok l, st))
                 (_paginators m) Fixture.three_sources).
  { repeat (constructor; [exists 10%nat; eexists; lazy; reflexivity|]).
    constructor. }
  split; [reflexivity|]. split; [lia|]. split; [exact H3|].
  apply (flatten_lazy_eager_agree_limit Fixture.ident Fixture.serve
           Fixture.newest_first (λ _, tt) Fixture.in_order m 4
           Fixture.three_sources eq_refl ltac:(lia) H3).
Defined.

Lemma merged_flatten_not_restartable_witness :
  let m := Fixture.merged None Fixture.three_sources [0; 1; 2]%nat in
  limit (merged_self m) = None ∧
  Forall (λ c, limit c.1 = None) (_paginators m) ∧
  ∃ O m',
    (merged_flatten Fixture.ident Fixture.serve Fixture.newest_first
       (λ _, tt) Fixture.in_order false 20 m []).1 = Some (Ok O, m') ∧
    ∃ m'', (merged_flatten Fixture.ident Fixture.serve Fixture.newest_first
              (λ _, tt) Fixture.in_order true 1 m' []).1 = Some (Ok [], m'').
Proof.
  intros m.
  assert (H2 : Forall (λ c, limit c.1 = None) (_paginators m)).
  { repeat (apply Forall_cons_2; [reflexivity|]). apply Forall_nil_2. }
  split; [reflexivity|]. split; [exact H2|].
  destruct (merged_flatten Fixture.ident Fixture.serve Fixture.newest_first
              (λ _, tt) Fixture.in_order false 20 m []).1 as [[[O|e] m']|] eqn:Hf;
    [|ruled_out Hf..].
  exists O, m'. split; [reflexivity|].
  apply (merged_flatten_not_restartable Fixture.ident Fixture.serve
           Fixture.newest_first (λ _, tt) Fixture.in_order m false true 20%nat []
           O m' eq_refl H2 Hf).
Defined.

Lemma Transactions_function_homogeneous_witness :
  let w' := mkWorld ()
              [Call__get_transaction_reasons "en-us";
               Call_request_transaction "getArtifactLog" (Some "en-us") None 0 20] in
  ∃ items,
    Transactions_function Fixture.client Fixture.int_validator Fixture.str_validator
      Fixture.int_validator Fixture.artifacts 0 (mkWorld () []) = (Ok items, w') ∧
    (items = [] ∨
     (Forall (λ x, is_item x = true) items ∧
      tr_kind Fixture.artifacts ∈ ["artifact"; "weapon"]) ∨
     (Forall (λ x, is_item x = false) items ∧
      tr_kind Fixture.artifacts ∈ ["primogem"; "crystal"; "resin"])).
Proof.
  intros w'.
  destruct (Transactions_function Fixture.client Fixture.int_validator
              Fixture.str_validator Fixture.int_validator Fixture.artifacts 0
              (mkWorld () [])) as [[items|e] w1] eqn:Hf; [|ruled_out Hf].
  assert (w1 = w') as -> by (revert Hf; vm_compute; intros [= _ <-]; reflexivity).
  exists items. split; [reflexivity|].
  apply (Transactions_function_homogeneous Fixture.client Fixture.int_validator
           Fixture.str_validator Fixture.int_validator Fixture.artifacts 0
           (mkWorld () []) w' items Hf).
Defined.

Lemma Transactions_function_fields_witness :
  ∃ items w',
    Transactions_function Fixture.ordered_client Fixture.int_validator
      Fixture.str_validator Fixture.int_validator Fixture.primogems 0
      (mkWorld [] []) = (Ok items, w') ∧
    cw w' = ["page"; "reasons"] ∧
    Forall2 (λ (trans : gmap string pyval) x,
               trans !! "id" ≫= Fixture.int_validator
               = Some (Transaction.id (as_transaction x)))
      [Fixture.plain_record 0 1004] items.
Proof.
  destruct (Transactions_function Fixture.ordered_client Fixture.int_validator
              Fixture.str_validator Fixture.int_validator Fixture.primogems 0
              (mkWorld [] [])) as [[items|e] w'] eqn:Hf; [|ruled_out Hf].
  exists items, w'. split; [reflexivity|].
  destruct (Transactions_function_fields Fixture.ordered_client
              Fixture.int_validator Fixture.str_validator Fixture.int_validator
              Fixture.primogems 0 (mkWorld [] []) w' items Hf)
    as (data & s1 & reasons & s2 & raws & Hd & Hr & -> & Hlist & _ & Hall).
  injection Hd as <- <-. injection Hr as _ <-.
  rewrite lookup_singleton_eq in Hlist. injection Hlist as <-.
  split; [reflexivity|].
  eapply Forall2_impl; [exact Hall|]. intros trans x (Hid & _). exact Hid.
Defined.

Lemma Transactions_function_bad_record_witness :
  let bad := delete "reason" (Fixture.plain_record 0 1004) in
  let raws := [bad; Fixture.plain_record 1 1004] in
  bad ∈ raws ∧ bad !! "reason" = None ∧ head raws = Some bad ∧
  ∃ e, (Transactions_function Fixture.careless_ordered_client
          Fixture.int_validator Fixture.str_validator Fixture.int_validator
          Fixture.primogems 0 (mkWorld [] [])).1 = Raise e ∧
       exc_type e = "KeyError".
Proof.
  intros bad raws.
  assert (H1 : bad ∈ raws) by (apply elem_of_cons; left; reflexivity).
  assert (H2 : bad !! "reason" = None) by (vm_compute; reflexivity).
  split; [exact H1|]. split; [exact H2|]. split; [reflexivity|].
  destruct (Transactions_function_bad_record Fixture.careless_ordered_client
              Fixture.int_validator Fixture.str_validator Fixture.int_validator
              Fixture.primogems 0 (mkWorld [] [])
              {[ "list" := raws ]} ["page"] {[ VInt 1004 := "Daily commission" ]}
              ["page"; "reasons"] raws bad
              eq_refl eq_refl eq_refl H1 (or_introl H2)) as [_ Hfirst].
  destruct (Hfirst eq_refl) as (e & He & Hty).
  exists e. split; [exact He|]. rewrite Hty, H2. reflexivity.
Defined.


Lemma WishHistory_function_wishes_witness :
  ∃ wishes w',
    WishHistory_function Fixture.wish_client Fixture.Wish_init
      Fixture.character_banner 0 (mkWorld () []) = (Ok wishes, w') ∧
    ∃ raws, Forall2 (λ (raw wish : gmap string pyval),
                       raw !! "banner_name" = None ∧
                       <["banner_name" := VStr "Character Event Wish"]> raw = wish)
              raws wishes.
Proof.
  destruct (WishHistory_function Fixture.wish_client Fixture.Wish_init
              Fixture.character_banner 0 (mkWorld () []))
    as [[wishes|e] w'] eqn:Hf; [|ruled_out Hf].
  exists wishes, w'. split; [reflexivity|].
  destruct (WishHistory_function_wishes Fixture.wish_client Fixture.Wish_init
              Fixture.character_banner 0 (mkWorld () []) w' wishes Hf)
    as (data & s1 & names & s2 & name & raws & _ & Hb & Hname & _ & _ & Hall).
  injection Hb as <- _. vm_compute in Hname. injection Hname as <-.
  exists raws. eapply Forall2_impl; [exact Hall|].
  intros raw wish [Hnone Hw]. split; [exact Hnone|]. injection Hw as Hw. exact Hw.
Defined.

Lemma WishHistory_function_fails_witness :
  (WishHistory_function Fixture.wish_client Fixture.Wish_init
     Fixture.unknown_banner 0 (mkWorld () [])).1
  = Raise (mkExc "KeyError" "999").
Proof.
  destruct (WishHistory_function_fails Fixture.wish_client Fixture.Wish_init
              Fixture.unknown_banner 0 (mkWorld () []) _ () eq_refl) as [_ H].
  rewrite (H {[ "list" := [Fixture.wish_record 2 "Keqing";
                           Fixture.wish_record 1 "Slingshot"] ]}
             {[ 301 := "Character Event Wish" ]} () eq_refl eq_refl);
    reflexivity.
Defined.


